(** * puppetboard/utils.py: a shallow embedding and its checked properties

    The module is glue between a web framework (flask), a REST client
    (requests, pypuppetdb) and the templates.  Python's exceptions are the
    control flow of nearly every function in it, so the embedding is built on
    a small monad: a computation takes the records logged so far and gives
    back either a value or the exception it raised, with the records logged
    up to that point. *)

From Stdlib Require Import ZArith String Ascii List Bool Lia.
From stdpp Require Import base decidable gmap strings pretty.
Import ListNotations.

Local Open Scope string_scope.
Local Open Scope list_scope.

(** ** Exceptions *)

(** What the code reads of the response attached to an HTTP error. *)
Record Response : Type := { status_code : Z }.

(** The exception classes the module tells apart.  A constructor stands for
    the class and its subclasses, as [except] and [isinstance] do.
    [ConnectionError] and [HTTPError] are the classes of
    [requests.exceptions] imported at the top of the module (not the builtin
    [ConnectionError]); an [HTTPError] built without a response has
    [response = None].  [HTTPException] is what [flask.abort] raises for a
    code it knows and [SystemExit] what [sys.exit] raises.  [OtherBaseException] covers the
    classes that derive from [BaseException] but not from [Exception]
    (KeyboardInterrupt, GeneratorExit). *)
Inductive exn : Type :=
| HTTPError (msg : string) (response : option Response)
| ConnectionError (msg : string)
| EmptyResponseError (msg : string)
| StopIteration
| ValueError (msg : string)
| SyntaxError (msg : string)
| TypeError (msg : string)
| AttributeError (msg : string)
| HTTPException (code : Z)
| SystemExit (code : Z)
| OtherException (cls msg : string)
| OtherBaseException (cls msg : string).

(** [isinstance(e, Exception)]: what a clause [except Exception] catches. *)
Definition is_Exception (e : exn) : bool :=
  match e with
  | SystemExit _ | OtherBaseException _ _ => false
  | _ => true
  end.

(** ** The logger *)

Inductive level : Type := INFO | WARNING | ERROR.

(** A logged message: a literal text, or [str(e)] of an exception. *)
Inductive message : Type :=
| Text (s : string)
| StrExn (e : exn).

Definition log_record : Type := level * message.

(** ** Computations *)

Inductive result (A : Type) : Type :=
| Ok (a : A)
| Raise (e : exn).
Arguments Ok {A} a.
Arguments Raise {A} e.

(** A computation: from the records logged so far to a result and the
    records logged after it (the newest record is the last one). *)
Definition M (A : Type) : Type := list log_record -> result A * list log_record.

Definition ret {A} (a : A) : M A := fun l => (Ok a, l).

Definition bind {A B} (m : M A) (k : A -> M B) : M B :=
  fun l => match m l with
           | (Ok a, l') => k a l'
           | (Raise e, l') => (Raise e, l')
           end.

Definition raise {A} (e : exn) : M A := fun l => (Raise e, l).

(** [try: body except ... as e: handler e]; a handler that matches no clause
    re-raises [e]. *)
Definition try_except {A} (body : M A) (handler : exn -> M A) : M A :=
  fun l => match body l with
           | (Ok a, l') => (Ok a, l')
           | (Raise e, l') => handler e l'
           end.

Declare Scope py_scope.
Delimit Scope py_scope with py.
Notation "'let!' x ':=' m 'in' k" := (bind m (fun x => k))
  (at level 10, x name, m at level 100, k at level 200) : py_scope.
Notation "m >> k" := (bind m (fun _ => k))
  (at level 62, right associativity) : py_scope.
Local Open Scope py_scope.

Definition log_to (lv : level) (msg : message) : M unit :=
  fun l => (Ok tt, l ++ [(lv, msg)]).

Definition log_info := log_to INFO.
Definition log_warning := log_to WARNING.
Definition log_error := log_to ERROR.

(** [flask.abort(code)] is the framework's, not this module's.  It looks the
    code up in the table of werkzeug's exception classes
    ([werkzeug.exceptions.default_exceptions]) and raises the class found,
    an [HTTPException] that ends the current request with that status.  A
    code the table does not hold makes it raise
    [LookupError("no exception for <code>")] instead, which is no abort: the
    table holds client and server errors only, and not all of them.  The
    table is the one of Werkzeug 1 and 2 (a later release adds 421).  Either
    way [abort] never returns. *)
Definition default_exceptions : list Z :=
  [400; 401; 403; 404; 405; 406; 408; 409; 410; 411; 412; 413; 414; 415; 416;
   417; 418; 422; 423; 424; 428; 429; 431; 451;
   500; 501; 502; 503; 504; 505]%Z.

Definition has_exception_class (code : Z) : bool :=
  existsb (Z.eqb code) default_exceptions.

(** What [abort(code)] raises; a [LookupError] is an [Exception] like any
    other. *)
Definition abort_raises (code : Z) : exn :=
  if has_exception_class code then HTTPException code
  else OtherException "LookupError" ("no exception for " +:+ pretty code).

Definition abort {A} (code : Z) : M A := raise (abort_raises code).

(** [sys.exit(code)] raises [SystemExit]. *)
Definition sys_exit {A} (code : Z) : M A := raise (SystemExit code).

(** ** The error-mapping wrapper *)

(** [e.response.status_code]; the attribute lookup fails on [None]. *)
Definition response_status_code (response : option Response) : M Z :=
  match response with
  | Some r => ret (status_code r)
  | None => raise (AttributeError "'NoneType' object has no attribute 'status_code'")
  end.

(** The call of [func] on its positional and keyword arguments is the
    computation [func args]. *)
Definition _do_get_or_abort {Args R} (reraise_client_error : bool)
    (func : Args -> M R) (args : Args) : M R :=
  try_except (func args) (fun e =>
    match e with
    | HTTPError _ response =>
        let! client_error :=
          (if reraise_client_error
           then let! c := response_status_code response in
                ret ((400 <=? c)%Z && (c <=? 499)%Z)
           else ret false) in
        if (client_error : bool)
        then log_warning (StrExn e) >> raise e
        else log_error (StrExn e) >>
             let! c := response_status_code response in
             abort c
    | ConnectionError _ =>
        log_error (StrExn e) >> abort 500
    | EmptyResponseError _ =>
        log_error (StrExn e) >> abort 204
    | _ =>
        if is_Exception e
        then log_error (StrExn e) >> abort 500
        else raise e
    end).

Definition get_or_abort {Args R} (func : Args -> M R) (args : Args) : M R :=
  _do_get_or_abort false func args.

Definition get_or_abort_except_client_errors {Args R}
    (func : Args -> M R) (args : Args) : M R :=
  _do_get_or_abort true func args.

(** The errors the wrapper has no clause of their own for: every instance of
    [Exception] that is none of the three backend errors. *)
Definition unclassified (e : exn) : bool :=
  match e with
  | HTTPError _ _ | ConnectionError _ | EmptyResponseError _ => false
  | _ => is_Exception e
  end.

(** A backend call that fails with the given exception, and one that
    succeeds; used as concrete callables. *)
Definition failing_call (e : exn) : unit -> M Z := fun _ => raise e.
Definition node_count : unit -> M Z := fun _ => log_info (Text "query") >> ret 42%Z.

(** ** The streaming guard *)

(** How a consumer's loop over an iterator ends: the iterator signalled its
    end, an exception reached the consumer, or the consumer stopped asking
    while the iterator was still suspended. *)
Inductive ending : Type :=
| Exhausted
| Failed (e : exn)
| Pending.

Section StreamingGuard.
Context {A St : Type}.

(** [next(generator)] on the wrapped iterator: a state machine on [St] that
    hands out an element or raises ([StopIteration] at its natural end). *)
Variable next_ : St -> result A * St.

(** The generator object made by [yield_or_stop generator]: suspended
    (before its first element or at the [yield]) or finished, together with
    the state of the wrapped iterator. *)
Inductive guard : Type :=
| Suspended (s : St)
| Finished (s : St).

(** The tuple of the [except] clause. *)
Definition stops (e : exn) : bool :=
  match e with
  | EmptyResponseError _ | ConnectionError _ | HTTPError _ _ | StopIteration => true
  | _ => false
  end.

(** One [next] on the guard: one turn of [while True].  [return] in a
    generator surfaces as [StopIteration]; an exception that leaves the
    body finishes the generator as well. *)
Definition yield_or_stop (g : guard) : result A * guard :=
  match g with
  | Finished s => (Raise StopIteration, Finished s)
  | Suspended s =>
      match next_ s with
      | (Ok x, s') => (Ok x, Suspended s')
      | (Raise e, s') =>
          if stops e then (Raise StopIteration, Finished s')
          else (Raise e, Finished s')
      end
  end.

(** A [for] loop (or [list(...)]) over the guard that asks at most [fuel]
    times: the elements received, how the loop ended, and the guard left
    behind. *)
Fixpoint consume (fuel : nat) (g : guard) : list A * ending * guard :=
  match fuel with
  | O => ([], Pending, g)
  | S fuel' =>
      match yield_or_stop g with
      | (Ok x, g') =>
          let '(xs, en, g'') := consume fuel' g' in (x :: xs, en, g'')
      | (Raise StopIteration, g') => ([], Exhausted, g')
      | (Raise e, g') => ([], Failed e, g')
      end
  end.

(** The wrapped iterator, started in [s], hands out exactly [xs] and then
    raises [e], which leaves it in [s']. *)
Inductive emits : St -> list A -> exn -> St -> Prop :=
| emits_raise s e s' :
    next_ s = (Raise e, s') -> emits s [] e s'
| emits_yield s x s1 xs e s' :
    next_ s = (Ok x, s1) -> emits s1 xs e s' -> emits s (x :: xs) e s'.
End StreamingGuard.

(** A source that replays a script: the elements still to hand out and the
    exception it raises once they are gone. *)
Definition scripted {A} (s : list A * exn) : result A * (list A * exn) :=
  match s with
  | (x :: rest, e) => (Ok x, (rest, e))
  | ([], e) => (Raise e, ([], e))
  end.

(** ** The version gate *)

(** The backend client, as far as the gate uses it. *)
Record PuppetDB : Type := { current_version : M string }.

(** Modelled from the spec: [packaging.version.parse] and the ordering of its
    versions belong to a library, not to this module.  The spec's version
    string is a dotted numeric string; the model covers exactly those strings
    (one or more runs of decimal digits separated by single dots), for which
    a version is its release, the tuple of its numbers.  Any other string is
    taken as invalid, for which the library raises [InvalidVersion], a
    [ValueError]; the suffixes of PEP 440 (epoch, pre, post, dev, local) are
    not modelled. *)
Record Version : Type := { release : list N }.

Definition digit_of (c : ascii) : option N :=
  let n := N_of_ascii c in
  if ((48 <=? n) && (n <=? 57))%N then Some (n - 48)%N else None.

(** The components of a dotted numeric string, read left to right: [cur] is
    the number read since the last dot, if any digit was read. *)
Fixpoint components (cur : option N) (s : string) : option (list N) :=
  match s with
  | EmptyString =>
      match cur with Some n => Some [n] | None => None end
  | String c s' =>
      if Ascii.eqb c "."
      then match cur with
           | Some n => option_map (cons n) (components None s')
           | None => None
           end
      else match digit_of c with
           | Some d =>
               components (Some (match cur with
                                 | Some n => 10 * n + d
                                 | None => d
                                 end)%N) s'
           | None => None
           end
  end.

Definition parse (version : string) : result Version :=
  match components None version with
  | Some r => Ok {| release := r |}
  | None => Raise (ValueError ("Invalid version: '" +:+ version +:+ "'"))
  end.

(** [itertools.dropwhile] *)
Fixpoint dropwhile {A} (p : A -> bool) (l : list A) : list A :=
  match l with
  | [] => []
  | x :: l' => if p x then dropwhile p l' else l
  end.

(** The release as the library compares it: trailing zeros dropped. *)
Definition strip_zeros (r : list N) : list N :=
  rev (dropwhile (fun x => (x =? 0)%N) (rev r)).

(** Comparison of two tuples of integers, as Python orders tuples: the first
    position that differs decides, and a proper prefix is smaller. *)
Fixpoint tuple_compare (a b : list N) : comparison :=
  match a, b with
  | [], [] => Eq
  | [], _ :: _ => Lt
  | _ :: _, [] => Gt
  | x :: a', y :: b' =>
      match (x ?= y)%N with
      | Eq => tuple_compare a' b'
      | c => c
      end
  end.

Definition _cmpkey (v : Version) : list N := strip_zeros (release v).

Definition version_lt (v w : Version) : bool :=
  match tuple_compare (_cmpkey v) (_cmpkey w) with Lt => true | _ => false end.

Definition version_le (v w : Version) : bool :=
  match tuple_compare (_cmpkey v) (_cmpkey w) with Gt => false | _ => true end.

(** A result of a pure library call, inside a computation. *)
Definition lift {A} (r : result A) : M A := fun l => (r, l).

(** [parse(lo) <= parse(version) < parse(hi)]: a chained comparison, whose
    right half is evaluated only when the left half holds. *)
Definition within (lo version hi : string) : M bool :=
  let! a := lift (parse lo) in
  let! v := lift (parse version) in
  if version_le a v
  then let! b := lift (parse hi) in ret (version_lt v b)
  else ret false.

(** [parse(version) < parse(hi)] *)
Definition below (version hi : string) : M bool :=
  let! v := lift (parse version) in
  let! b := lift (parse hi) in
  ret (version_lt v b).

(** [if cond: body], where [body] ends in a call that raises. *)
Definition when (cond : bool) (body : M unit) : M unit :=
  if cond then body else ret tt.

Definition check_db_version (puppetdb : PuppetDB) : M unit :=
  try_except
    (let! version := current_version puppetdb in
     log_info (Text ("PuppetDB version: " +:+ version)) >>
     (let! bad := within "5.2.0" version "5.2.13" in
      when bad
        (log_error (Text "For PuppetDB 5.2.x version >= 5.2.13 is required (with v2 metrics API)") >>
         sys_exit 1)) >>
     (let! bad := within "5.3.0" version "5.3.13" in
      when bad
        (log_error (Text "For PuppetDB 5.3.x version >= 5.3.13 is required (with v2 metrics API)") >>
         sys_exit 1)) >>
     (let! bad := within "6.0.0" version "6.9.1" in
      when bad
        (log_error (Text "For PuppetDB 6.x version >= 6.9.1 is required (with v2 metrics API)") >>
         sys_exit 1)) >>
     (let! bad := below version "5.2.13" in
      when bad
        (log_error (Text "The minimum supported version of PuppetDB is 5.2.13 (with v2 metrics API)") >>
         sys_exit 1)))
    (fun e =>
       match e with
       | HTTPError _ _ => log_error (StrExn e) >> sys_exit 2
       | ConnectionError _ => log_error (StrExn e) >> sys_exit 2
       | EmptyResponseError _ => log_error (StrExn e) >> sys_exit 2
       | _ => raise e
       end).

(** A backend that reports the given version, and one whose call fails. *)
Definition backend_at (version : string) : PuppetDB :=
  {| current_version := ret version |}.
Definition backend_down (e : exn) : PuppetDB :=
  {| current_version := raise e |}.

(** The ordering in the spec's words, semantic-version ordering: the numbers
    are compared position by position from the left, a missing position
    counting as zero. *)
Definition all_zero (r : list N) : bool := forallb (fun x => (x =? 0)%N) r.

Fixpoint semver_compare (a b : list N) : comparison :=
  match a, b with
  | [], _ => if all_zero b then Eq else Lt
  | _ :: _, [] => if all_zero a then Eq else Gt
  | x :: a', y :: b' =>
      match (x ?= y)%N with
      | Eq => semver_compare a' b'
      | c => c
      end
  end.

Definition semver_lt (a b : list N) : Prop := semver_compare a b = Lt.
Definition semver_le (a b : list N) : Prop := semver_compare a b <> Gt.

(** ** Values shown in the templates *)

(** The keys of a mapping: the hashable builtin values. *)
Inductive key : Type :=
| KNone
| KBool (b : bool)
| KInt (n : Z)
| KStr (s : string).

(** What is neither a string, a list nor a mapping: the constants, the
    integers, and [OObject cls str_], an instance of any other builtin class
    (float, tuple, set, ...) with the text that [str] gives for it. *)
Inductive other : Type :=
| ONone
| OBool (b : bool)
| OInt (n : Z)
| OObject (cls : string) (str_ : string).

(** A value handed to a template, split the way [formatvalue] tests it.  A
    mapping is the list of its items in insertion order, which is the order
    Python iterates a [dict] in; the keys of a [dict] are pairwise distinct,
    so [value[k]] for the key of an item is the item's second component. *)
#[warnings="-register-all"]
Inductive value : Type :=
| VStr (s : string)
| VList (items : list value)
| VDict (items : list (key * value))
| VOther (o : other).

Abbreviation VNone := (VOther ONone).
Abbreviation VBool b := (VOther (OBool b)).
Abbreviation VInt n := (VOther (OInt n)).

(** [str(n)] for an integer. *)
Definition str_int (n : Z) : string := pretty.pretty n.

(** [str(value)] in the last branch of [formatvalue]. *)
Definition py_str (o : other) : string :=
  match o with
  | ONone => "None"
  | OBool true => "True"
  | OBool false => "False"
  | OInt n => str_int n
  | OObject _ s => s
  end.

Definition key_type_name (k : key) : string :=
  match k with
  | KNone => "NoneType"
  | KBool _ => "bool"
  | KInt _ => "int"
  | KStr _ => "str"
  end.

(** [k + s] for a key [k] and a string [s]: concatenation when [k] is a
    string; the other key types do not add to a string. *)
Definition key_add_str (k : key) (s : string) : result string :=
  match k with
  | KStr ks => Ok (ks +:+ s)
  | _ => Raise (TypeError ("unsupported operand type(s) for +: '"
                           +:+ key_type_name k +:+ "' and 'str'"))
  end.

(** [sep.join(parts)] *)
Definition join (sep : string) (parts : list string) : string :=
  String.concat sep parts.

Fixpoint formatvalue (v : value) : result string :=
  match v with
  | VStr s => Ok s
  | VList items =>
      match
        (fix each (l : list value) : result (list string) :=
           match l with
           | [] => Ok []
           | x :: l' =>
               match formatvalue x with
               | Raise e => Raise e
               | Ok s =>
                   match each l' with
                   | Raise e => Raise e
                   | Ok ss => Ok (s :: ss)
                   end
               end
           end) items
      with
      | Raise e => Raise e
      | Ok parts => Ok (join ", " parts)
      end
  | VDict items =>
      (fix loop (ret : string) (l : list (key * value)) : result string :=
         match l with
         | [] => Ok ret
         | (k, x) :: l' =>
             match key_add_str k " => " with
             | Raise e => Raise e
             | Ok lhs =>
                 match formatvalue x with
                 | Raise e => Raise e
                 | Ok s => loop (ret +:+ ((lhs +:+ s) +:+ ",<br/>")) l'
                 end
             end
         end) "" items
  | VOther o => Ok (py_str o)
  end.

(** The rendering in the spec's words, for comparison with [formatvalue]:
    a string as it is; a list as its elements rendered and joined with a
    comma and a space; a mapping as one piece per item, in insertion order,
    made of the key, an arrow, the rendered value and the line-break marker,
    the pieces put together with nothing in between and nothing removed at
    the end; anything else as what [str] gives. *)
Definition key_text (k : key) : string :=
  match k with
  | KStr s => s
  | KNone => py_str ONone
  | KBool b => py_str (OBool b)
  | KInt n => py_str (OInt n)
  end.

Definition concat_all (pieces : list string) : string :=
  fold_right String.append "" pieces.

Fixpoint render (v : value) : string :=
  match v with
  | VStr s => s
  | VList items => join ", " (map render items)
  | VDict items =>
      concat_all
        (map (fun '(k, x) => key_text k +:+ " => " +:+ render x +:+ ",<br/>") items)
  | VOther o => py_str o
  end.

(** Every mapping in the value, at any depth, has strings for keys. *)
Fixpoint str_keyed (v : value) : bool :=
  match v with
  | VList items => forallb str_keyed items
  | VDict items =>
      forallb (fun '(k, x) =>
                 match k with KStr _ => str_keyed x | _ => false end) items
  | _ => true
  end.

(** ** The environment validator *)

Definition check_env (env : string) (envs : gset string) : M unit :=
  if bool_decide (env <> "*") && bool_decide (env ∉ envs)
  then abort 404
  else ret tt.

(** ** The generic value parser *)

Section ParsePython.
(** [ast.literal_eval] is Python's own; the module only calls it. *)
Variable literal_eval : string -> result value.

Definition parse_python (s : string) : result value :=
  match literal_eval s with
  | Ok v => Ok v
  | Raise (ValueError _) => Ok (VStr s)
  | Raise (SyntaxError _) => Ok (VStr s)
  | Raise e => Raise e
  end.
End ParsePython.

(** *** What [ast.literal_eval] does on a part of its input

    [ast.literal_eval] belongs to Python's standard library.
    [literal_eval_known s] is [Some r] when [s] lies in the part of Python's
    expression syntax described here, and [r] is then what
    [ast.literal_eval s] gives; it is [None] on every other string, about
    which the model says nothing.  The part covered: tokens with spaces
    between them (none in front), made of decimal integers without sign,
    strings in single or double quotes without backslash, [True], [False],
    [None], names, lists and mappings, with at most [max_open] opening
    brackets.  Round brackets, sets, subscripts, keywords, string prefixes and
    adjacent strings are left out.  The texts of the exceptions are
    indicative, CPython words them differently from version to version; the
    [except] clauses look at the class only. *)

Inductive bracket : Type := Round | Square | Curly.

Inductive token : Type :=
| TInt (n : Z)
| TStr (s : string)
| TConst (o : other)
| TName (s : string)
| TKeyword (s : string)
| TOpen (b : bracket)
| TClose (b : bracket)
| TComma
| TColon.

Definition code (c : ascii) : N := N_of_ascii c.

Definition is_digit (c : ascii) : bool := ((48 <=? code c) && (code c <=? 57))%N.

Definition is_name_start (c : ascii) : bool :=
  (((65 <=? code c) && (code c <=? 90))
   || ((97 <=? code c) && (code c <=? 122))
   || (code c =? 95))%N.

Definition is_quote (c : ascii) : bool := ((code c =? 39) || (code c =? 34))%N.

(** Printable ASCII other than the backslash. *)
Definition is_plain (c : ascii) : bool :=
  ((32 <=? code c) && (code c <=? 126) && negb (code c =? 92))%N.

Definition punctuation (c : ascii) : option token :=
  if Ascii.eqb c "[" then Some (TOpen Square)
  else if Ascii.eqb c "]" then Some (TClose Square)
  else if Ascii.eqb c "{" then Some (TOpen Curly)
  else if Ascii.eqb c "}" then Some (TClose Curly)
  else if Ascii.eqb c "(" then Some (TOpen Round)
  else if Ascii.eqb c ")" then Some (TClose Round)
  else if Ascii.eqb c "," then Some TComma
  else if Ascii.eqb c ":" then Some TColon
  else None.

Definition keywords : list string :=
  ["and"; "as"; "assert"; "async"; "await"; "break"; "class"; "continue";
   "def"; "del"; "elif"; "else"; "except"; "finally"; "for"; "from";
   "global"; "if"; "import"; "in"; "is"; "lambda"; "nonlocal"; "not"; "or";
   "pass"; "raise"; "return"; "try"; "while"; "with"; "yield";
   "__peg_parser__"].

Definition name_token (n : string) : token :=
  if String.eqb n "True" then TConst (OBool true)
  else if String.eqb n "False" then TConst (OBool false)
  else if String.eqb n "None" then TConst ONone
  else if existsb (String.eqb n) keywords then TKeyword n
  else TName n.

Fixpoint digits_value (acc : Z) (d : string) : Z :=
  match d with
  | EmptyString => acc
  | String c d' => digits_value (10 * acc + Z.of_N (code c - 48)) d'
  end.

(** A run of digits is an integer literal when it has no leading zero (a
    lone [0] apart); runs longer than 4000 digits are left out. *)
Definition int_token (d : string) : option token :=
  match d with
  | String "0" (String _ _) => None
  | _ => if (4000 <? String.length d)%nat then None
         else Some (TInt (digits_value 0 d))
  end.

Definition snoc (s : string) (c : ascii) : string := s +:+ String c EmptyString.

(** Where the lexer is: between tokens, or inside a number, a name or a
    string opened by [quote]. *)
Inductive lexing : Type :=
| Idle
| InInt (digits : string)
| InName (chars : string)
| InStr (quote : ascii) (body : string).

(** A character met between tokens; [acc] holds the tokens read so far, the
    last one first.  A string that follows a string is left out (adjacent
    strings concatenate, and three quotes open a long string). *)
Definition start_token (c : ascii) (acc : list token) : option (lexing * list token) :=
  if Ascii.eqb c " " then Some (Idle, acc)
  else if is_digit c then Some (InInt (String c EmptyString), acc)
  else if is_name_start c then Some (InName (String c EmptyString), acc)
  else if is_quote c then
    match acc with
    | TStr _ :: _ => None
    | _ => Some (InStr c EmptyString, acc)
    end
  else match punctuation c with
       | Some t => Some (Idle, t :: acc)
       | None => None
       end.

Fixpoint lex (st : lexing) (acc : list token) (s : string)
  : option (result (list token)) :=
  match s with
  | EmptyString =>
      match st with
      | Idle => Some (Ok (rev acc))
      | InInt d =>
          match int_token d with
          | Some t => Some (Ok (rev (t :: acc)))
          | None => None
          end
      | InName n => Some (Ok (rev (name_token n :: acc)))
      | InStr _ _ => Some (Raise (SyntaxError "unterminated string literal"))
      end
  | String c s' =>
      match st with
      | Idle =>
          match start_token c acc with
          | Some (st', acc') => lex st' acc' s'
          | None => None
          end
      | InInt d =>
          if is_digit c then lex (InInt (snoc d c)) acc s'
          else if is_name_start c then None
          else match int_token d with
               | None => None
               | Some t =>
                   match start_token c (t :: acc) with
                   | Some (st', acc') => lex st' acc' s'
                   | None => None
                   end
               end
      | InName n =>
          if is_name_start c || is_digit c then lex (InName (snoc n c)) acc s'
          else if is_quote c then None
          else match start_token c (name_token n :: acc) with
               | Some (st', acc') => lex st' acc' s'
               | None => None
               end
      | InStr q body =>
          if Ascii.eqb c q then lex Idle (TStr body :: acc) s'
          else if is_plain c then lex (InStr q (snoc body c)) acc s'
          else None
      end
  end.

(** The expressions of the covered part. *)
#[warnings="-register-all"]
Inductive lit : Type :=
| LInt (n : Z)
| LStr (s : string)
| LConst (o : other)
| LName (s : string)
| LList (elts : list lit)
| LDict (items : list (lit * lit)).

(** What was read last inside the innermost open bracket: nothing yet, a
    complete expression, a comma, or the colon after a key. *)
Inductive slot : Type :=
| Empty
| Item (e : lit)
| Comma
| Colon.

(** An open bracket: a list with the elements read so far, or a mapping with
    its items and, past a colon, the key that waits for its value (the last
    read comes first). *)
Inductive frame : Type :=
| FList (done : list lit)
| FDict (done : list (lit * lit)) (k : option lit).

Definition bracket_eqb (a b : bracket) : bool :=
  match a, b with
  | Round, Round | Square, Square | Curly, Curly => true
  | _, _ => false
  end.

(** Every closing bracket closes the bracket opened last, and none is left
    open. *)
Fixpoint well_nested (opened : list bracket) (toks : list token) : bool :=
  match toks with
  | [] => match opened with [] => true | _ :: _ => false end
  | TOpen b :: r => well_nested (b :: opened) r
  | TClose b :: r =>
      match opened with
      | b' :: opened' => bracket_eqb b b' && well_nested opened' r
      | [] => false
      end
  | _ :: r => well_nested opened r
  end.

Definition left_out (t : token) : bool :=
  match t with
  | TKeyword _ | TOpen Round | TClose Round => true
  | _ => false
  end.

Definition atom (t : token) : option lit :=
  match t with
  | TInt n => Some (LInt n)
  | TStr s => Some (LStr s)
  | TConst o => Some (LConst o)
  | TName s => Some (LName s)
  | _ => None
  end.

Definition syntax_error {A} : option (result A) :=
  Some (Raise (SyntaxError "invalid syntax")).

(** One token of the parser.  [None] marks a construct that is left out: a
    subscript, a set, a tuple without brackets. *)
Definition shift (stack : list frame) (cur : slot) (t : token)
  : option (result (list frame * slot)) :=
  match t with
  | TInt _ | TStr _ | TConst _ | TName _ =>
      match cur, atom t with
      | Item _, _ => syntax_error
      | _, Some a => Some (Ok (stack, Item a))
      | _, None => None
      end
  | TOpen Square =>
      match cur with
      | Item _ => None
      | _ => Some (Ok (FList [] :: stack, Empty))
      end
  | TOpen Curly =>
      match cur with
      | Item _ => syntax_error
      | _ => Some (Ok (FDict [] None :: stack, Empty))
      end
  | TClose Square =>
      match stack, cur with
      | FList done :: stack', Empty => Some (Ok (stack', Item (LList (rev done))))
      | FList done :: stack', Comma => Some (Ok (stack', Item (LList (rev done))))
      | FList done :: stack', Item e => Some (Ok (stack', Item (LList (rev (e :: done)))))
      | _, _ => syntax_error
      end
  | TClose Curly =>
      match stack, cur with
      | FDict done None :: stack', Empty => Some (Ok (stack', Item (LDict (rev done))))
      | FDict done None :: stack', Comma => Some (Ok (stack', Item (LDict (rev done))))
      | FDict [] None :: _, Item _ => None
      | FDict done (Some k) :: stack', Item e =>
          Some (Ok (stack', Item (LDict (rev ((k, e) :: done)))))
      | _, _ => syntax_error
      end
  | TComma =>
      match cur, stack with
      | Item _, [] => None
      | Item e, FList done :: stack' => Some (Ok (FList (e :: done) :: stack', Comma))
      | Item _, FDict [] None :: _ => None
      | Item e, FDict done (Some k) :: stack' =>
          Some (Ok (FDict ((k, e) :: done) None :: stack', Comma))
      | _, _ => syntax_error
      end
  | TColon =>
      match cur, stack with
      | Item e, FDict done None :: stack' => Some (Ok (FDict done (Some e) :: stack', Colon))
      | _, _ => syntax_error
      end
  | TKeyword _ | TOpen Round | TClose Round => None
  end.

Fixpoint parse_tokens (stack : list frame) (cur : slot) (toks : list token)
  : option (result lit) :=
  match toks with
  | [] =>
      match stack, cur with
      | [], Item e => Some (Ok e)
      | _, _ => syntax_error
      end
  | t :: toks' =>
      match shift stack cur t with
      | None => None
      | Some (Raise e) => Some (Raise e)
      | Some (Ok (stack', cur')) => parse_tokens stack' cur' toks'
      end
  end.

(** [a == b] on keys: [True] and [False] are the integers 1 and 0. *)
Definition key_number (k : key) : option Z :=
  match k with
  | KBool true => Some 1%Z
  | KBool false => Some 0%Z
  | KInt n => Some n
  | _ => None
  end.

Definition key_eqb (a b : key) : bool :=
  match a, b with
  | KNone, KNone => true
  | KStr s, KStr t => String.eqb s t
  | _, _ =>
      match key_number a, key_number b with
      | Some m, Some n => (m =? n)%Z
      | _, _ => false
      end
  end.

(** [d[k] = v]: an equal key keeps its place (and the key object that came
    first); a new key goes last. *)
Fixpoint dict_set (d : list (key * value)) (k : key) (v : value) : list (key * value) :=
  match d with
  | [] => [(k, v)]
  | (k', v') :: d' =>
      if key_eqb k' k then (k', v) :: d' else (k', v') :: dict_set d' k v
  end.

(** The key a value makes: lists and mappings are not hashable; for the
    objects of other classes the model has no key. *)
Definition as_key (v : value) : option (result key) :=
  match v with
  | VStr s => Some (Ok (KStr s))
  | VOther ONone => Some (Ok KNone)
  | VOther (OBool b) => Some (Ok (KBool b))
  | VOther (OInt n) => Some (Ok (KInt n))
  | VOther (OObject _ _) => None
  | VList _ => Some (Raise (TypeError "unhashable type: 'list'"))
  | VDict _ => Some (Raise (TypeError "unhashable type: 'dict'"))
  end.

(** The conversion of the parsed expression, in the order [literal_eval]
    works: the elements of a list from left to right; for a mapping, item by
    item, the key, then the value, then the insertion, which hashes the
    key. *)
Fixpoint convert (e : lit) : option (result value) :=
  match e with
  | LInt n => Some (Ok (VInt n))
  | LStr s => Some (Ok (VStr s))
  | LConst o => Some (Ok (VOther o))
  | LName _ => Some (Raise (ValueError "malformed node or string"))
  | LList elts =>
      (fix each (done : list value) (l : list lit) : option (result value) :=
         match l with
         | [] => Some (Ok (VList (rev done)))
         | x :: l' =>
             match convert x with
             | Some (Ok v) => each (v :: done) l'
             | other_ => other_
             end
         end) [] elts
  | LDict items =>
      (fix each (d : list (key * value)) (l : list (lit * lit)) : option (result value) :=
         match l with
         | [] => Some (Ok (VDict d))
         | (ke, ve) :: l' =>
             match convert ke with
             | Some (Ok kv) =>
                 match convert ve with
                 | Some (Ok v) =>
                     match as_key kv with
                     | Some (Ok k) => each (dict_set d k v) l'
                     | Some (Raise ex) => Some (Raise ex)
                     | None => None
                     end
                 | other_ => other_
                 end
             | other_ => other_
             end
         end) [] items
  end.

Fixpoint count_open (s : string) : nat :=
  match s with
  | EmptyString => O
  | String c s' =>
      ((if Ascii.eqb c "[" || Ascii.eqb c "{" || Ascii.eqb c "(" then 1 else 0)
       + count_open s')%nat
  end.

Definition max_open : nat := 20.

Definition starts_with_space (s : string) : bool :=
  match s with
  | String c _ => Ascii.eqb c " "
  | EmptyString => false
  end.

Definition literal_eval_known (s : string) : option (result value) :=
  if starts_with_space s || (max_open <? count_open s)%nat then None
  else
    match lex Idle [] s with
    | None => None
    | Some (Raise e) => Some (Raise e)
    | Some (Ok toks) =>
        if negb (well_nested [] toks) then syntax_error
        else if existsb left_out toks then None
        else
          match parse_tokens [] Empty toks with
          | None => None
          | Some (Raise e) => Some (Raise e)
          | Some (Ok e) => convert e
          end
    end.

(** An evaluator that agrees with [literal_eval_known] wherever that one
    answers, and is [rest] elsewhere. *)
Definition literal_eval_from (rest : string -> result value) (s : string)
  : result value :=
  match literal_eval_known s with
  | Some r => r
  | None => rest s
  end.

(** The three errors of the backend client. *)
Definition backend_error (e : exn) : bool :=
  match e with
  | HTTPError _ _ | ConnectionError _ | EmptyResponseError _ => true
  | _ => false
  end.

(** The table of the spec: the releases the gate turns away. *)
Definition rejected (r : list N) : Prop :=
  (semver_le [5; 2; 0]%N r /\ semver_lt r [5; 2; 13]%N)
  \/ (semver_le [5; 3; 0]%N r /\ semver_lt r [5; 3; 13]%N)
  \/ (semver_le [6; 0; 0]%N r /\ semver_lt r [6; 9; 1]%N)
  \/ semver_lt r [5; 2; 13]%N.

(** ** Column-name quoting *)

(** [s.replace(old, new)] for a pattern [old] of one character: every
    occurrence is replaced, from left to right. *)
Fixpoint replace_char (old : ascii) (new : string) (s : string) : string :=
  match s with
  | EmptyString => EmptyString
  | String c rest =>
      if Ascii.eqb c old then new +:+ replace_char old new rest
      else String c (replace_char old new rest)
  end.

Definition quote_columns_data (data : string) : string :=
  replace_char "." "\." data.

(** The reading of a quoted name: a backslash followed by a dot stands for the
    dot. *)
Fixpoint unquote_columns_data (s : string) : string :=
  match s with
  | String "\" (String "." rest) => String "." (unquote_columns_data rest)
  | String c rest => String c (unquote_columns_data rest)
  | EmptyString => EmptyString
  end.

(** The number of occurrences of a character. *)
Fixpoint count_char (c : ascii) (s : string) : nat :=
  match s with
  | EmptyString => O
  | String d rest => ((if Ascii.eqb d c then 1 else 0) + count_char c rest)%nat
  end.

(** Every dot of [s] comes right after a backslash; [after_backslash] tells
    whether the character before [s] was one. *)
Fixpoint dots_escaped (after_backslash : bool) (s : string) : bool :=
  match s with
  | EmptyString => true
  | String c rest =>
      (if Ascii.eqb c "." then after_backslash else true)
      && dots_escaped (Ascii.eqb c "\") rest
  end.

(** ** Paths of templates ([os.path] on a POSIX system) *)

(** [(p[:i], p[i:])] for [i = p.rfind('/') + 1]: the cut after the last
    slash. *)
Fixpoint cut_after_last_slash (p : string) : string * string :=
  match p with
  | EmptyString => (EmptyString, EmptyString)
  | String c rest =>
      match cut_after_last_slash rest with
      | (EmptyString, tail) =>
          if Ascii.eqb c "/" then (String c EmptyString, tail)
          else (EmptyString, String c tail)
      | (head, tail) => (String c head, tail)
      end
  end.

(** [head == '/' * len(head)] *)
Fixpoint all_slashes (s : string) : bool :=
  match s with
  | EmptyString => true
  | String c rest => Ascii.eqb c "/" && all_slashes rest
  end.

(** [s.rstrip('/')] *)
Fixpoint rstrip_slashes (s : string) : string :=
  match s with
  | EmptyString => EmptyString
  | String c rest =>
      match rstrip_slashes rest with
      | EmptyString => if Ascii.eqb c "/" then EmptyString else String c EmptyString
      | rest' => String c rest'
      end
  end.

(** The head as [dirname] and [split] return it: without its trailing
    slashes, unless it is made of slashes only. *)
Definition trim_head (head : string) : string :=
  match head with
  | EmptyString => head
  | _ => if all_slashes head then head else rstrip_slashes head
  end.

(** [os.path.split(p)] *)
Definition path_split (p : string) : string * string :=
  let '(head, tail) := cut_after_last_slash p in (trim_head head, tail).

(** [os.path.dirname(p)] *)
Definition path_dirname (p : string) : string :=
  trim_head (fst (cut_after_last_slash p)).

(** ** Request and URL helpers *)

(** The template context, as far as the helper reads it: the name of the
    template, [None] for a template that was not loaded from a file. *)
Record TemplateContext : Type := { name : option string }.

(** The current request, as far as the helper reads it: the endpoint, the
    arguments of the matched route ([None] when no route matched), and the
    items that [dict.update] takes from the query arguments. *)
Record Request : Type := {
  endpoint : string;
  view_args : option (gmap string value);
  args : gmap string value
}.

Section Urls.
(** [flask.url_for] is the framework's: [url_for endpoint values] stands for
    the call of it on the endpoint and the keyword arguments [values], the
    binding of the arguments included. *)
Variable url_for : string -> gmap string value -> result string.

(** [static_path] of [url_static_offline]: the tuple that [os.path.split]
    returns, without its first component, joined with slashes. *)
Definition static_path_of (template : string) : string :=
  let '(head, tail) := path_split (path_dirname template) in
  join "/" (skipn 1 [head; tail]).

Definition url_static_offline (context : TemplateContext) (value : string)
  : result string :=
  match name context with
  | None =>
      Raise (TypeError "expected str, bytes or os.PathLike object, not NoneType")
  | Some template =>
      url_for "static"
        {[ "filename" := VStr (static_path_of template +:+ "/" +:+ value) ]}
  end.

(** [args] of [url_for_field] before the call of [url_for]: the copy of the
    route arguments, updated with the query arguments, then with the
    field. *)
Definition field_args (route query : gmap string value) (field : string) (v : value)
  : gmap string value :=
  <[ field := v ]> (query ∪ route).

Definition url_for_field (request : Request) (field : string) (v : value)
  : result string :=
  match view_args request with
  | None => Raise (AttributeError "'NoneType' object has no attribute 'copy'")
  | Some route => url_for (endpoint request) (field_args route (args request) field v)
  end.
End Urls.

(** A stand-in for [flask.url_for] on the endpoint of the static files: the
    file name under the endpoint. *)
Definition static_url (endpoint : string) (values : gmap string value)
  : result string :=
  match values !! "filename" with
  | Some (VStr file) => Ok ("/" +:+ endpoint +:+ "/" +:+ file)
  | _ => Raise (OtherException "BuildError" endpoint)
  end.

(** ** The accepted versions, as ranges *)

Definition accepted (r : list N) : Prop :=
  (semver_le [5; 2; 13]%N r /\ semver_lt r [5; 3; 0]%N)
  \/ (semver_le [5; 3; 13]%N r /\ semver_lt r [6; 0; 0]%N)
  \/ semver_le [6; 9; 1]%N r.

(** ** The formatting of the elements of a list *)

(** [map(formatvalue, value)] as [join] consumes it: the elements formatted
    from left to right, up to the first that raises. *)
Fixpoint format_each (l : list value) : result (list string) :=
  match l with
  | [] => Ok []
  | x :: l' =>
      match formatvalue x with
      | Raise e => Raise e
      | Ok s =>
          match format_each l' with
          | Raise e => Raise e
          | Ok ss => Ok (s :: ss)
          end
      end
  end.

(** * Properties *)

(** ** The error-mapping wrapper *)

Section Wrapper.
Context {Args R : Type}.
Variable func : Args -> M R.
Variable args : Args.
Variables l l' : list log_record.

(** The wrapper on a call that raised: the handler runs on the records the
    call left, and an abort raises what the framework has for the code. *)
Lemma _do_get_or_abort_raised (flag : bool) (e : exn) :
  func args l = (Raise e, l') ->
  _do_get_or_abort flag func args l =
    match e with
    | HTTPError _ response =>
        match response with
        | Some r =>
            if flag && (400 <=? status_code r)%Z && (status_code r <=? 499)%Z
            then (Raise e, l' ++ [(WARNING, StrExn e)])
            else (Raise (abort_raises (status_code r)), l' ++ [(ERROR, StrExn e)])
        | None =>
            (Raise (AttributeError "'NoneType' object has no attribute 'status_code'"),
             if flag then l' else l' ++ [(ERROR, StrExn e)])
        end
    | ConnectionError _ => (Raise (HTTPException 500), l' ++ [(ERROR, StrExn e)])
    | EmptyResponseError _ => (Raise (abort_raises 204), l' ++ [(ERROR, StrExn e)])
    | _ =>
        if is_Exception e
        then (Raise (HTTPException 500), l' ++ [(ERROR, StrExn e)])
        else (Raise e, l')
    end.
Proof.
  intros Hcall. unfold _do_get_or_abort, try_except. rewrite Hcall.
  destruct e as [msg [r|]| | | | | | | | | | |]; try reflexivity.
  - destruct flag; cbn [andb].
    + unfold bind, response_status_code, ret, log_warning, log_error, log_to, raise, abort.
      destruct (400 <=? status_code r)%Z, (status_code r <=? 499)%Z; reflexivity.
    + reflexivity.
  - destruct flag; reflexivity.
Qed.


(** What the wrapper does with a code the framework has no exception class
    for: the call of [abort] raises a lookup error, after the error record. *)
Lemma http_error_code_without_class (msg : string) (r : Response) :
  func args l = (Raise (HTTPError msg (Some r)), l') ->
  has_exception_class (status_code r) = false ->
  get_or_abort func args l =
    (Raise (OtherException "LookupError"
              ("no exception for " +:+ pretty (status_code r))),
     l' ++ [(ERROR, StrExn (HTTPError msg (Some r)))]).
Proof.
  intros Hcall Hclass. unfold get_or_abort.
  rewrite (_do_get_or_abort_raised _ _ Hcall). cbn [andb]. unfold abort_raises.
  now rewrite Hclass.
Qed.

(** C2 (the code misses the claim at the empty response).  With either value
    of the flag: a connectivity error of the call becomes an abort with
    status 500, and so does any other error that is none of the three backend
    errors.  For an empty response the code calls [abort(204)]; the framework
    has no exception class for 204, so what is raised is a lookup error and
    not an abort with status 204.  The error is logged first in each case. *)
Theorem backend_error_dispatch (flag : bool) (e : exn) :
  func args l = (Raise e, l') ->
  ((exists msg, e = ConnectionError msg) ->
     _do_get_or_abort flag func args l =
       (Raise (HTTPException 500), l' ++ [(ERROR, StrExn e)]))
  /\ ((exists msg, e = EmptyResponseError msg) ->
        _do_get_or_abort flag func args l =
          (Raise (OtherException "LookupError" "no exception for 204"),
           l' ++ [(ERROR, StrExn e)])
        /\ fst (_do_get_or_abort flag func args l) <> Raise (HTTPException 204))
  /\ (unclassified e = true ->
        _do_get_or_abort flag func args l =
          (Raise (HTTPException 500), l' ++ [(ERROR, StrExn e)])).
Proof.
  intros Hcall. rewrite (_do_get_or_abort_raised flag _ Hcall).
  refine (conj _ (conj _ _)).
  - intros [msg ->]. reflexivity.
  - intros [msg ->]. split; [reflexivity | discriminate].
  - intros Hun. destruct e; cbn in Hun; try discriminate; reflexivity.
Qed.

(** C9. A call that succeeds: both entry points hand its result back as it
    is, and nothing is logged, aborted or raised on top of what the call
    did itself. *)
Theorem success_returned_unchanged (v : R) :
  func args l = (Ok v, l') ->
  get_or_abort func args l = (Ok v, l')
  /\ get_or_abort_except_client_errors func args l = (Ok v, l').
Proof.
  intros Hcall.
  unfold get_or_abort, get_or_abort_except_client_errors, _do_get_or_abort, try_except.
  now rewrite Hcall.
Qed.
End Wrapper.

(** What the wrapper lets through: an exception that is no [Exception]. *)
Lemma _do_get_or_abort_base_exception {Args R} (flag : bool)
    (func : Args -> M R) (args : Args) (l l' : list log_record) (e : exn) :
  func args l = (Raise e, l') ->
  is_Exception e = false ->
  _do_get_or_abort flag func args l = (Raise e, l').
Proof.
  intros Hcall Hbase. rewrite (_do_get_or_abort_raised _ _ _ _ flag e Hcall).
  destruct e; cbn in Hbase; try discriminate; reflexivity.
Qed.



Lemma backend_error_dispatch_witness :
  failing_call (EmptyResponseError "no nodes") tt []
    = (Raise (EmptyResponseError "no nodes"), [])
  /\ _do_get_or_abort false (failing_call (EmptyResponseError "no nodes")) tt []
     = (Raise (OtherException "LookupError" "no exception for 204"),
        [(ERROR, StrExn (EmptyResponseError "no nodes"))])
  /\ _do_get_or_abort true (failing_call (ConnectionError "connection refused")) tt []
     = (Raise (HTTPException 500), [(ERROR, StrExn (ConnectionError "connection refused"))])
  /\ _do_get_or_abort true (failing_call (OtherException "KeyError" "'certname'")) tt []
     = (Raise (HTTPException 500),
        [(ERROR, StrExn (OtherException "KeyError" "'certname'"))]).
Proof.
  split; [reflexivity |].
  refine (conj _ (conj _ _)).
  - apply (proj1 (proj2 (backend_error_dispatch
                           (failing_call (EmptyResponseError "no nodes")) tt [] []
                           false (EmptyResponseError "no nodes") eq_refl))).
    exists "no nodes". reflexivity.
  - apply (proj1 (backend_error_dispatch
                    (failing_call (ConnectionError "connection refused")) tt [] []
                    true (ConnectionError "connection refused") eq_refl)).
    exists "connection refused". reflexivity.
  - apply (proj2 (proj2 (backend_error_dispatch
                           (failing_call (OtherException "KeyError" "'certname'")) tt [] []
                           true (OtherException "KeyError" "'certname'") eq_refl))).
    reflexivity.
Defined.

Lemma success_returned_unchanged_witness :
  node_count tt [] = (Ok 42%Z, [(INFO, Text "query")])
  /\ get_or_abort node_count tt [] = (Ok 42%Z, [(INFO, Text "query")])
  /\ get_or_abort_except_client_errors node_count tt [] = (Ok 42%Z, [(INFO, Text "query")]).
Proof.
  split; [reflexivity |].
  exact (success_returned_unchanged node_count tt [] [(INFO, Text "query")] 42%Z eq_refl).
Defined.

(** ** The streaming guard *)

Section Guard.
Context {A St : Type}.
Variable next_ : St -> result A * St.

(** A finished guard stays finished: every further [next] signals the end. *)
Lemma yield_or_stop_finished (s : St) :
  yield_or_stop next_ (Finished s) = (Raise StopIteration, Finished s).
Proof. reflexivity. Qed.

(** An element of the source is handed on as it is. *)
Lemma yield_or_stop_element (s s1 : St) (x : A) :
  next_ s = (Ok x, s1) ->
  yield_or_stop next_ (Suspended s) = (Ok x, Suspended s1).
Proof. intros H. cbn. now rewrite H. Qed.

(** An exception of the [except] tuple ends the guard cleanly. *)
Lemma yield_or_stop_swallows (s s' : St) (e : exn) :
  next_ s = (Raise e, s') -> stops e = true ->
  yield_or_stop next_ (Suspended s) = (Raise StopIteration, Finished s').
Proof. intros H He. cbn. now rewrite H, He. Qed.

(** Any other exception leaves the guard as it came. *)
Lemma yield_or_stop_passes (s s' : St) (e : exn) :
  next_ s = (Raise e, s') -> stops e = false ->
  yield_or_stop next_ (Suspended s) = (Raise e, Finished s').
Proof. intros H He. cbn. now rewrite H, He. Qed.

(** The loop over the guard follows the source element by element. *)
Lemma consume_emits (s s' : St) (xs : list A) (e : exn) :
  emits next_ s xs e s' ->
  forall fuel, length xs < fuel ->
  consume next_ fuel (Suspended s) =
    (xs, if stops e then Exhausted else Failed e, Finished s').
Proof.
  induction 1 as [s e s' Hnext | s x s1 xs e s' Hnext Hrest IH];
    intros fuel Hfuel; (destruct fuel as [|fuel]; [cbn in Hfuel; lia |]).
  - cbn [consume]. destruct (stops e) eqn:He.
    + now rewrite (yield_or_stop_swallows _ _ _ Hnext He).
    + rewrite (yield_or_stop_passes _ _ _ Hnext He).
      destruct e; try reflexivity; discriminate.
  - cbn [consume]. rewrite (yield_or_stop_element _ _ _ Hnext).
    rewrite IH by (cbn in Hfuel; lia). reflexivity.
Qed.

(** C5. A source that hands out the elements [xs] and then ends, or raises
    one of the three backend errors: a loop over the guard that asks more
    than [length xs] times receives exactly [xs], in that order, and ends
    cleanly; the guard is finished, and the source was not asked again
    after it raised. *)
Theorem guard_yields_prefix_then_stops (s s' : St) (xs : list A) (e : exn) (fuel : nat) :
  emits next_ s xs e s' ->
  e = StopIteration \/ backend_error e = true ->
  length xs < fuel ->
  consume next_ fuel (Suspended s) = (xs, Exhausted, Finished s').
Proof.
  intros Hsrc He Hfuel. rewrite (consume_emits _ _ _ _ Hsrc fuel Hfuel).
  assert (stops e = true) as ->; [| reflexivity].
  destruct He as [-> | He]; [reflexivity |].
  destruct e; cbn in He; try discriminate; reflexivity.
Qed.

(** C10. A source that hands out [xs] and then raises an exception that is
    neither its natural end nor one of the three backend errors: the
    consumer receives [xs] and then that very exception; the guard does not
    turn it into a clean end. *)
Theorem guard_propagates_other_errors (s s' : St) (xs : list A) (e : exn) (fuel : nat) :
  emits next_ s xs e s' ->
  e <> StopIteration -> backend_error e = false ->
  length xs < fuel ->
  consume next_ fuel (Suspended s) = (xs, Failed e, Finished s')
  /\ yield_or_stop next_ (snd (consume next_ (length xs) (Suspended s)))
     = (Raise e, Finished s').
Proof.
  intros Hsrc Hnat Hback Hfuel.
  assert (stops e = false) as He.
  { destruct e; cbn in Hback; try discriminate; try reflexivity. congruence. }
  split.
  - rewrite (consume_emits _ _ _ _ Hsrc fuel Hfuel). now rewrite He.
  - clear Hfuel. induction Hsrc as [s e s' Hnext | s x s1 xs e s' Hnext Hrest IH].
    + cbn [length consume snd]. now apply yield_or_stop_passes.
    + cbn [length consume]. rewrite (yield_or_stop_element _ _ _ Hnext).
      specialize (IH Hnat Hback He).
      destruct (consume next_ (length xs) (Suspended s1)) as [[ys en] g].
      exact IH.
Qed.
End Guard.

(** A scripted source emits its script. *)
Lemma scripted_emits {A} (xs : list A) (e : exn) :
  emits scripted (xs, e) xs e ([], e).
Proof.
  induction xs as [|x xs IH].
  - now apply emits_raise.
  - eapply emits_yield; [reflexivity | exact IH].
Qed.

Lemma guard_yields_prefix_then_stops_witness :
  emits scripted ([1; 2; 3], ConnectionError "connection reset") [1; 2; 3]
    (ConnectionError "connection reset") ([], ConnectionError "connection reset")
  /\ consume scripted 4 (Suspended ([1; 2; 3], ConnectionError "connection reset"))
     = ([1; 2; 3], Exhausted, Finished ([], ConnectionError "connection reset")).
Proof.
  split; [apply scripted_emits |].
  apply (guard_yields_prefix_then_stops scripted _ _ _ _ 4
           (scripted_emits [1; 2; 3] (ConnectionError "connection reset"))).
  - right. reflexivity.
  - cbn. lia.
Defined.

Lemma guard_propagates_other_errors_witness :
  consume scripted 3 (Suspended ([1; 2], OtherException "KeyError" "'certname'"))
  = ([1; 2], Failed (OtherException "KeyError" "'certname'"),
     Finished ([], OtherException "KeyError" "'certname'")).
Proof.
  apply (guard_propagates_other_errors scripted _ _ _ _ 3
           (scripted_emits [1; 2] (OtherException "KeyError" "'certname'"))).
  - discriminate.
  - reflexivity.
  - cbn. lia.
Defined.

(** ** The version gate *)

(** *** The library's comparison is semantic-version ordering *)

Lemma dropwhile_snoc {A} (p : A -> bool) (l : list A) (x : A) :
  dropwhile p (l ++ [x]) =
    if forallb p l then (if p x then [] else [x]) else dropwhile p l ++ [x].
Proof.
  induction l as [|y l IH]; cbn.
  - reflexivity.
  - destruct (p y); cbn; [exact IH | reflexivity].
Qed.

Lemma forallb_rev {A} (p : A -> bool) (l : list A) :
  forallb p (rev l) = forallb p l.
Proof.
  induction l as [|y l IH]; cbn; [reflexivity |].
  rewrite forallb_app, IH. cbn. rewrite andb_true_r. apply andb_comm.
Qed.

Lemma strip_zeros_all_zero (r : list N) :
  all_zero r = true -> strip_zeros r = [].
Proof.
  unfold strip_zeros, all_zero. rewrite <- (forallb_rev _ r).
  induction (rev r) as [|y l IH]; cbn; [reflexivity |].
  destruct (y =? 0)%N; cbn; [exact IH | discriminate].
Qed.

Lemma strip_zeros_cons (x : N) (r : list N) :
  strip_zeros (x :: r) = if all_zero (x :: r) then [] else x :: strip_zeros r.
Proof.
  unfold strip_zeros at 1. cbn [rev]. rewrite dropwhile_snoc, forallb_rev.
  change (all_zero (x :: r)) with ((x =? 0)%N && all_zero r).
  change (forallb (fun x => (x =? 0)%N) r) with (all_zero r).
  destruct (all_zero r) eqn:Hr.
  - rewrite (strip_zeros_all_zero r Hr), andb_true_r.
    destruct (x =? 0)%N; reflexivity.
  - rewrite andb_false_r, rev_app_distr. reflexivity.
Qed.

Lemma strip_zeros_nil_iff (r : list N) :
  strip_zeros r = [] <-> all_zero r = true.
Proof.
  split; [| apply strip_zeros_all_zero].
  destruct r as [|x r]; [reflexivity |].
  rewrite strip_zeros_cons. destruct (all_zero (x :: r)); [reflexivity | discriminate].
Qed.

Lemma tuple_compare_nil_l (b : list N) :
  tuple_compare [] (strip_zeros b) = if all_zero b then Eq else Lt.
Proof.
  destruct (all_zero b) eqn:Hb.
  - now rewrite (strip_zeros_all_zero b Hb).
  - destruct (strip_zeros b) eqn:Hs; [| reflexivity].
    apply strip_zeros_nil_iff in Hs. congruence.
Qed.

Lemma tuple_compare_nil_r (a : list N) :
  tuple_compare (strip_zeros a) [] = if all_zero a then Eq else Gt.
Proof.
  destruct (all_zero a) eqn:Ha.
  - now rewrite (strip_zeros_all_zero a Ha).
  - destruct (strip_zeros a) eqn:Hs; [| reflexivity].
    apply strip_zeros_nil_iff in Hs. congruence.
Qed.

(** Dropping the trailing zeros and comparing as tuples is comparing
    position by position with the missing positions read as zero. *)
Lemma tuple_compare_strip_zeros (a b : list N) :
  tuple_compare (strip_zeros a) (strip_zeros b) = semver_compare a b.
Proof.
  revert b. induction a as [|x a IH]; intros b.
  - change (strip_zeros []) with (@nil N). rewrite tuple_compare_nil_l. reflexivity.
  - destruct b as [|y b].
    + change (strip_zeros []) with (@nil N). rewrite tuple_compare_nil_r. reflexivity.
    + cbn [semver_compare]. rewrite <- IH. rewrite !strip_zeros_cons.
      change (all_zero (x :: a)) with ((x =? 0)%N && all_zero a).
      change (all_zero (y :: b)) with ((y =? 0)%N && all_zero b).
      destruct (N.eqb_spec x 0) as [-> | Hx], (N.eqb_spec y 0) as [-> | Hy];
        cbn [andb].
      * destruct (all_zero a) eqn:Ha, (all_zero b) eqn:Hb; cbn [tuple_compare N.compare].
        -- now rewrite (strip_zeros_all_zero a Ha), (strip_zeros_all_zero b Hb).
        -- rewrite (strip_zeros_all_zero a Ha), tuple_compare_nil_l, Hb. reflexivity.
        -- rewrite (strip_zeros_all_zero b Hb), tuple_compare_nil_r, Ha. reflexivity.
        -- reflexivity.
      * destruct (all_zero a) eqn:Ha; cbn [tuple_compare].
        -- destruct (N.compare_spec 0 y); try lia. reflexivity.
        -- reflexivity.
      * destruct (all_zero b) eqn:Hb; cbn [tuple_compare].
        -- destruct (N.compare_spec x 0); try lia. reflexivity.
        -- reflexivity.
      * reflexivity.
Qed.

Lemma version_lt_semver (v w : Version) :
  version_lt v w = true <-> semver_lt (release v) (release w).
Proof.
  unfold version_lt, semver_lt, _cmpkey. rewrite tuple_compare_strip_zeros.
  destruct (semver_compare (release v) (release w)); split; congruence.
Qed.

Lemma version_le_semver (v w : Version) :
  version_le v w = true <-> semver_le (release v) (release w).
Proof.
  unfold version_le, semver_le, _cmpkey. rewrite tuple_compare_strip_zeros.
  destruct (semver_compare (release v) (release w)); split; congruence.
Qed.

(** *** The gate *)

Lemma within_parsed (lo version hi : string) (a v b : Version) (l : list log_record) :
  parse lo = Ok a -> parse version = Ok v -> parse hi = Ok b ->
  within lo version hi l = (Ok (version_le a v && version_lt v b), l).
Proof.
  intros Ha Hv Hb. unfold within, bind, lift, ret. rewrite Ha, Hv, Hb.
  destruct (version_le a v); reflexivity.
Qed.

Lemma below_parsed (version hi : string) (v b : Version) (l : list log_record) :
  parse version = Ok v -> parse hi = Ok b ->
  below version hi l = (Ok (version_lt v b), l).
Proof.
  intros Hv Hb. unfold below, bind, lift, ret. now rewrite Hv, Hb.
Qed.

(** The four tests of the gate, as one boolean. *)
Lemma rejected_tests (v : Version) :
  rejected (release v) <->
  (version_le {| release := [5; 2; 0]%N |} v && version_lt v {| release := [5; 2; 13]%N |})
  || (version_le {| release := [5; 3; 0]%N |} v && version_lt v {| release := [5; 3; 13]%N |})
  || (version_le {| release := [6; 0; 0]%N |} v && version_lt v {| release := [6; 9; 1]%N |})
  || version_lt v {| release := [5; 2; 13]%N |} = true.
Proof.
  unfold rejected.
  rewrite !orb_true_iff, !andb_true_iff, !version_le_semver, !version_lt_semver.
  cbn [release]. tauto.
Qed.

(** C3. For a version the backend reports and the library parses: the gate
    ends the process with exit code 1 exactly when the version lies in
    [5.2.0, 5.2.13), in [5.3.0, 5.3.13), in [6.0.0, 6.9.1) or below 5.2.13
    in semantic-version ordering; any other version is accepted, the gate
    returns, and only the version has been logged. *)
Theorem version_gate_rejects_exactly
    (puppetdb : PuppetDB) (l l' : list log_record) (version : string) (v : Version) :
  current_version puppetdb l = (Ok version, l') ->
  parse version = Ok v ->
  (fst (check_db_version puppetdb l) = Raise (SystemExit 1) <-> rejected (release v))
  /\ (~ rejected (release v) ->
        check_db_version puppetdb l =
          (Ok tt, l' ++ [(INFO, Text ("PuppetDB version: " +:+ version))])).
Proof.
  intros Hcur Hv. rewrite rejected_tests.
  cbv beta iota delta
    [check_db_version try_except bind log_info log_error log_to when ret sys_exit raise].
  rewrite Hcur. cbv beta iota.
  rewrite (within_parsed "5.2.0" version "5.2.13"
             {| release := [5; 2; 0]%N |} v {| release := [5; 2; 13]%N |} _ eq_refl Hv eq_refl).
  destruct (version_le {| release := [5; 2; 0]%N |} v
            && version_lt v {| release := [5; 2; 13]%N |}); cbn [orb fst];
    [split; [split; reflexivity | intros H; now elim H] |].
  rewrite (within_parsed "5.3.0" version "5.3.13"
             {| release := [5; 3; 0]%N |} v {| release := [5; 3; 13]%N |} _ eq_refl Hv eq_refl).
  destruct (version_le {| release := [5; 3; 0]%N |} v
            && version_lt v {| release := [5; 3; 13]%N |}); cbn [orb fst];
    [split; [split; reflexivity | intros H; now elim H] |].
  rewrite (within_parsed "6.0.0" version "6.9.1"
             {| release := [6; 0; 0]%N |} v {| release := [6; 9; 1]%N |} _ eq_refl Hv eq_refl).
  destruct (version_le {| release := [6; 0; 0]%N |} v
            && version_lt v {| release := [6; 9; 1]%N |}); cbn [orb fst];
    [split; [split; reflexivity | intros H; now elim H] |].
  rewrite (below_parsed version "5.2.13" v {| release := [5; 2; 13]%N |} _ Hv eq_refl).
  destruct (version_lt v {| release := [5; 2; 13]%N |}); cbn [orb fst];
    [split; [split; reflexivity | intros H; now elim H] |].
  split; [split; discriminate | reflexivity].
Qed.

(** Membership in the table of the spec is settled by computation. *)
Ltac settle_rejected :=
  unfold rejected, semver_le, semver_lt; vm_compute;
  first [ intuition congruence | intuition discriminate ].

Lemma version_gate_rejects_exactly_witness :
  (current_version (backend_at "5.2.5") [] = (Ok "5.2.5", [])
   /\ parse "5.2.5" = Ok {| release := [5; 2; 5]%N |})
  /\ fst (check_db_version (backend_at "5.2.5") []) = Raise (SystemExit 1)
  /\ check_db_version (backend_at "5.2.13") []
     = (Ok tt, [(INFO, Text "PuppetDB version: 5.2.13")])
  /\ fst (check_db_version (backend_at "5.3.5") []) = Raise (SystemExit 1)
  /\ check_db_version (backend_at "6.9.1") []
     = (Ok tt, [(INFO, Text "PuppetDB version: 6.9.1")])
  /\ fst (check_db_version (backend_at "5.1.0") []) = Raise (SystemExit 1)
  /\ fst (check_db_version (backend_at "6.9.0") []) = Raise (SystemExit 1).
Proof.
  split; [split; reflexivity |].
  refine (conj _ (conj _ (conj _ (conj _ (conj _ _))))).
  - apply (proj1 (version_gate_rejects_exactly (backend_at "5.2.5") [] [] "5.2.5"
                    {| release := [5; 2; 5]%N |} eq_refl eq_refl)).
    settle_rejected.
  - apply (proj2 (version_gate_rejects_exactly (backend_at "5.2.13") [] [] "5.2.13"
                    {| release := [5; 2; 13]%N |} eq_refl eq_refl)).
    settle_rejected.
  - apply (proj1 (version_gate_rejects_exactly (backend_at "5.3.5") [] [] "5.3.5"
                    {| release := [5; 3; 5]%N |} eq_refl eq_refl)).
    settle_rejected.
  - apply (proj2 (version_gate_rejects_exactly (backend_at "6.9.1") [] [] "6.9.1"
                    {| release := [6; 9; 1]%N |} eq_refl eq_refl)).
    settle_rejected.
  - apply (proj1 (version_gate_rejects_exactly (backend_at "5.1.0") [] [] "5.1.0"
                    {| release := [5; 1; 0]%N |} eq_refl eq_refl)).
    settle_rejected.
  - apply (proj1 (version_gate_rejects_exactly (backend_at "6.9.0") [] [] "6.9.0"
                    {| release := [6; 9; 0]%N |} eq_refl eq_refl)).
    settle_rejected.
Defined.

(** C4. When the call for the version raises one of the three backend
    errors, the gate logs that error and ends the process with exit code 2:
    neither exit code 1 nor a return. *)
Theorem version_unavailable_exits_2
    (puppetdb : PuppetDB) (l l' : list log_record) (e : exn) :
  current_version puppetdb l = (Raise e, l') ->
  backend_error e = true ->
  check_db_version puppetdb l = (Raise (SystemExit 2), l' ++ [(ERROR, StrExn e)]).
Proof.
  intros Hcur He.
  cbv beta iota delta [check_db_version try_except bind].
  rewrite Hcur. cbv beta iota.
  destruct e; cbn in He; try discriminate; reflexivity.
Qed.

Lemma version_unavailable_exits_2_witness :
  current_version (backend_down (EmptyResponseError "no data")) []
    = (Raise (EmptyResponseError "no data"), [])
  /\ check_db_version (backend_down (EmptyResponseError "no data")) []
     = (Raise (SystemExit 2), [(ERROR, StrExn (EmptyResponseError "no data"))])
  /\ check_db_version (backend_down (HTTPError "503 Server Error" None)) []
     = (Raise (SystemExit 2), [(ERROR, StrExn (HTTPError "503 Server Error" None))])
  /\ check_db_version (backend_down (ConnectionError "timed out")) []
     = (Raise (SystemExit 2), [(ERROR, StrExn (ConnectionError "timed out"))]).
Proof.
  split; [reflexivity |].
  refine (conj _ (conj _ _)).
  - exact (version_unavailable_exits_2 (backend_down (EmptyResponseError "no data"))
             [] [] _ eq_refl eq_refl).
  - exact (version_unavailable_exits_2 (backend_down (HTTPError "503 Server Error" None))
             [] [] _ eq_refl eq_refl).
  - exact (version_unavailable_exits_2 (backend_down (ConnectionError "timed out"))
             [] [] _ eq_refl eq_refl).
Defined.

(** The exits of the gate are raised inside its [try] and pass its three
    clauses: an exception of the call that is none of the three goes through
    unchanged as well. *)
Lemma check_db_version_other_exception
    (puppetdb : PuppetDB) (l l' : list log_record) (e : exn) :
  current_version puppetdb l = (Raise e, l') ->
  backend_error e = false ->
  check_db_version puppetdb l = (Raise e, l').
Proof.
  intros Hcur He.
  cbv beta iota delta [check_db_version try_except bind].
  rewrite Hcur. cbv beta iota.
  destruct e; cbn in He; try discriminate; reflexivity.
Qed.

(** ** The value formatter *)

Lemma append_assoc (a b c : string) : (a +:+ b) +:+ c = a +:+ (b +:+ c).
Proof.
  induction a as [|ch a IH]; [reflexivity |].
  change (String ch ((a +:+ b) +:+ c) = String ch (a +:+ (b +:+ c))).
  now rewrite IH.
Qed.

Lemma append_nil_r (a : string) : a +:+ "" = a.
Proof.
  induction a as [|ch a IH]; [reflexivity |].
  change (String ch (a +:+ "") = String ch a). now rewrite IH.
Qed.

(** Induction on a value that reaches the values nested in lists and
    mappings. *)
Lemma value_nested_ind (P : value -> Prop) :
  (forall s, P (VStr s)) ->
  (forall items, Forall P items -> P (VList items)) ->
  (forall items, Forall (fun kx => P (snd kx)) items -> P (VDict items)) ->
  (forall o, P (VOther o)) ->
  forall v, P v.
Proof.
  intros Hstr Hlist Hdict Hother. fix IH 1. intros [s | items | items | o].
  - apply Hstr.
  - apply Hlist. induction items as [|x items IHitems]; constructor.
    + apply IH.
    + exact IHitems.
  - apply Hdict. induction items as [|[k x] items IHitems]; constructor.
    + apply IH.
    + exact IHitems.
  - apply Hother.
Qed.

(** A string, and a value that is neither string, list nor mapping. *)
Lemma formatvalue_str (s : string) : formatvalue (VStr s) = Ok s.
Proof. reflexivity. Qed.

Lemma formatvalue_other (o : other) : formatvalue (VOther o) = Ok (py_str o).
Proof. reflexivity. Qed.

(** A key that is no string stops the formatting of its mapping, whatever
    was put together before. *)
Lemma formatvalue_key_not_str (k : key) (x : value) (rest : list (key * value)) :
  (forall s, k <> KStr s) ->
  exists msg, formatvalue (VDict ((k, x) :: rest)) = Raise (TypeError msg).
Proof.
  intros Hk. destruct k as [| b | n | s]; cbn; eauto.
  now elim (Hk s).
Qed.

(** C6 (as amended: the keys of the mappings are strings).  A value whose
    mappings all have strings for keys is formatted into its rendering: a
    string unchanged, a list as its elements formatted and joined with a
    comma and a space, a mapping as the pieces [key => formatted value,<br/>]
    of its items in insertion order, the last piece keeping its marker, and
    any other value as [str] gives it. *)
Theorem formatvalue_renders (v : value) :
  str_keyed v = true -> formatvalue v = Ok (render v).
Proof.
  induction v as [s | items IH | items IH | o] using value_nested_ind; intros Hkeys.
  - reflexivity.
  - cbn [formatvalue render]. cbn [str_keyed] in Hkeys.
    match goal with
    | |- match ?each items with _ => _ end = _ =>
        assert (each items = Ok (map render items)) as ->; [| reflexivity]
    end.
    induction IH as [|x items Hx _ IHitems]; [reflexivity |].
    cbn [forallb] in Hkeys. apply andb_true_iff in Hkeys as [Hk Hks].
    cbn [map]. rewrite (Hx Hk), (IHitems Hks). reflexivity.
  - cbn [formatvalue render]. cbn [str_keyed] in Hkeys.
    match goal with
    | |- ?loop "" items = _ =>
        assert (forall ret,
                  loop ret items =
                    Ok (ret +:+ concat_all
                          (map (fun '(k, x) =>
                                  key_text k +:+ " => " +:+ render x +:+ ",<br/>")
                               items))) as Hloop; [| exact (Hloop "")]
    end.
    induction IH as [|[k x] items Hx _ IHitems]; intros ret.
    + cbn [map concat_all fold_right]. now rewrite append_nil_r.
    + cbn [forallb] in Hkeys. apply andb_true_iff in Hkeys as [Hk Hks].
      destruct k as [| b | n | ks]; try discriminate.
      cbn [snd] in Hx. cbn [key_add_str]. rewrite (Hx Hk), (IHitems Hks).
      cbn [map concat_all fold_right key_text].
      now rewrite !append_assoc.
  - reflexivity.
Qed.

Lemma formatvalue_renders_witness :
  str_keyed (VDict [(KStr "a", VStr "1"); (KStr "b", VStr "2")]) = true
  /\ formatvalue (VDict [(KStr "a", VStr "1"); (KStr "b", VStr "2")])
     = Ok "a => 1,<br/>b => 2,<br/>"
  /\ formatvalue (VList [VStr "eth0"; VInt 2; VList [VBool true; VNone]])
     = Ok "eth0, 2, True, None".
Proof.
  split; [reflexivity |]. split.
  - exact (formatvalue_renders (VDict [(KStr "a", VStr "1"); (KStr "b", VStr "2")]) eq_refl).
  - exact (formatvalue_renders (VList [VStr "eth0"; VInt 2; VList [VBool true; VNone]]) eq_refl).
Defined.

(** C6 as stated fails on a mapping with a key that is no string: the key is
    added to a string, which raises for an integer, where the rendering of
    the claim would be the text after the inequality. *)
Lemma formatvalue_integer_key :
  formatvalue (VDict [(KInt 1, VStr "x")])
    = Raise (TypeError "unsupported operand type(s) for +: 'int' and 'str'")
  /\ formatvalue (VDict [(KInt 1, VStr "x")]) <> Ok "1 => x,<br/>"
  /\ render (VDict [(KInt 1, VStr "x")]) = "1 => x,<br/>".
Proof.
  split; [reflexivity |]. split; [discriminate | reflexivity].
Qed.

(** ** The generic value parser *)

(** An exception of the evaluator that is neither a syntax error nor a value
    error leaves [parse_python] as it came. *)
Lemma parse_python_other_exception
    (literal_eval : string -> result value) (s : string) (e : exn) :
  literal_eval s = Raise e ->
  (forall m, e <> ValueError m) -> (forall m, e <> SyntaxError m) ->
  parse_python literal_eval s = Raise e.
Proof.
  intros Heval Hvalue Hsyntax. unfold parse_python. rewrite Heval.
  destruct e as [| | | | m | m | | | | | |]; try reflexivity.
  - now elim (Hvalue m).
  - now elim (Hsyntax m).
Qed.

(** C7 (as amended: the fallback covers the syntax errors and the value
    errors of the evaluator).  Whatever [ast.literal_eval] is: on a string it
    evaluates, [parse_python] returns the value it gives; on a string it
    rejects with a syntax error or a value error, [parse_python] returns the
    string itself; and [parse_python] raises neither a syntax error nor a
    value error on any string. *)
Theorem parse_python_value_or_string (literal_eval : string -> result value) (s : string) :
  (forall v, literal_eval s = Ok v -> parse_python literal_eval s = Ok v)
  /\ (forall m, literal_eval s = Raise (SyntaxError m) ->
        parse_python literal_eval s = Ok (VStr s))
  /\ (forall m, literal_eval s = Raise (ValueError m) ->
        parse_python literal_eval s = Ok (VStr s))
  /\ (forall m, parse_python literal_eval s <> Raise (SyntaxError m))
  /\ (forall m, parse_python literal_eval s <> Raise (ValueError m)).
Proof.
  unfold parse_python.
  refine (conj _ (conj _ (conj _ (conj _ _)))).
  - intros v ->. reflexivity.
  - intros m ->. reflexivity.
  - intros m ->. reflexivity.
  - intros m. destruct (literal_eval s) as [v | e]; [discriminate |].
    destruct e; discriminate.
  - intros m. destruct (literal_eval s) as [v | e]; [discriminate |].
    destruct e; discriminate.
Qed.

(** The two strings of the spec, under every evaluator that agrees with the
    covered part of [ast.literal_eval]. *)
Lemma parse_python_value_or_string_witness :
  (forall rest, parse_python (literal_eval_from rest) "[1, 2, 3]"
                = Ok (VList [VInt 1; VInt 2; VInt 3]))
  /\ (forall rest, parse_python (literal_eval_from rest) "not valid syntax {"
                   = Ok (VStr "not valid syntax {")).
Proof.
  split; intros rest.
  - apply (proj1 (parse_python_value_or_string (literal_eval_from rest) "[1, 2, 3]")).
    reflexivity.
  - apply (proj1 (proj2 (parse_python_value_or_string (literal_eval_from rest)
                           "not valid syntax {")) "invalid syntax").
    reflexivity.
Defined.

(** C7 as stated fails: a list is not hashable, so the evaluation of a
    mapping display with a list for key raises a type error, for which
    [parse_python] has no clause.  No evaluator that agrees with the covered
    part of [ast.literal_eval] makes [parse_python] return on that string. *)
Lemma parse_python_unhashable_key :
  literal_eval_known "{[]: 1}" = Some (Raise (TypeError "unhashable type: 'list'"))
  /\ (forall rest, parse_python (literal_eval_from rest) "{[]: 1}"
                   = Raise (TypeError "unhashable type: 'list'"))
  /\ ~ (exists rest v, parse_python (literal_eval_from rest) "{[]: 1}" = Ok v).
Proof.
  split; [reflexivity |]. split; [reflexivity |].
  intros (rest & v & H). discriminate H.
Qed.

(** ** The environment validator *)

(** C8. [check_env] returns, with nothing logged and no value, exactly when
    the name is the wildcard or one of the known names; on any other name it
    aborts the request with status 404. *)
Theorem check_env_accepts_iff (env : string) (envs : gset string) (l : list log_record) :
  (check_env env envs l = (Ok tt, l) <-> env = "*" \/ env ∈ envs)
  /\ (~ (env = "*" \/ env ∈ envs) ->
        check_env env envs l = (Raise (HTTPException 404), l)).
Proof.
  unfold check_env.
  destruct (decide (env = "*")) as [Hstar | Hstar].
  - rewrite (bool_decide_eq_false_2 (env <> "*")) by (intros H; now apply H).
    cbn [andb]. split; [split; [now left | reflexivity] | intros H; elim H; now left].
  - rewrite (bool_decide_eq_true_2 (env <> "*") Hstar). cbn [andb].
    destruct (decide (env ∈ envs)) as [Hin | Hout].
    + rewrite (bool_decide_eq_false_2 (env ∉ envs)) by (intros H; now apply H).
      split; [split; [now right | reflexivity] | intros H; elim H; now right].
    + rewrite (bool_decide_eq_true_2 (env ∉ envs) Hout).
      split; [split; [discriminate | intros [H | H]; contradiction] | reflexivity].
Qed.

Lemma check_env_accepts_iff_witness :
  check_env "*" {["prod"]} [] = (Ok tt, [])
  /\ check_env "prod" ({["prod"]} ∪ {["dev"]}) [] = (Ok tt, [])
  /\ check_env "qa" ({["prod"]} ∪ {["dev"]}) [] = (Raise (HTTPException 404), []).
Proof.
  refine (conj _ (conj _ _)).
  - apply (proj1 (check_env_accepts_iff "*" {["prod"]} [])). now left.
  - apply (proj1 (check_env_accepts_iff "prod" ({["prod"]} ∪ {["dev"]}) [])).
    right. apply elem_of_union. left. now apply elem_of_singleton.
  - apply (proj2 (check_env_accepts_iff "qa" ({["prod"]} ∪ {["dev"]}) [])).
    intros [Hstar | Hknown]; [discriminate |].
    apply elem_of_union in Hknown as [Hknown | Hknown];
      apply elem_of_singleton in Hknown; discriminate.
Defined.

(** * Further properties *)

(** ** The error-mapping wrapper, beyond the claims *)

(** X1. The wrapper returns exactly when the call returns, with the call's
    value and records: no failure of the call is turned into a value, and no
    value into a failure. *)
Theorem wrapper_returns_iff_call_returns {Args R} (flag : bool)
    (func : Args -> M R) (args : Args) (l l2 : list log_record) (v : R) :
  _do_get_or_abort flag func args l = (Ok v, l2) <-> func args l = (Ok v, l2).
Proof.
  destruct (func args l) as [[v' | e] l'] eqn:Hcall.
  - unfold _do_get_or_abort, try_except. rewrite Hcall. reflexivity.
  - rewrite (_do_get_or_abort_raised _ _ _ _ flag e Hcall).
    split; [| discriminate].
    destruct e as [msg [r|]| | | | | | | | | | |]; cbn [is_Exception];
      try discriminate.
    destruct (flag && (400 <=? status_code r)%Z && (status_code r <=? 499)%Z);
      discriminate.
Qed.

(** X2. An HTTP error that carries no response makes the wrapper fail on the
    lookup of the status code: the caller gets an [AttributeError], not an
    abort.  In re-raise mode nothing has been logged by then; otherwise the
    error record has. *)
Theorem http_error_without_response {Args R}
    (func : Args -> M R) (args : Args) (l l' : list log_record) (msg : string) :
  func args l = (Raise (HTTPError msg None), l') ->
  get_or_abort_except_client_errors func args l
    = (Raise (AttributeError "'NoneType' object has no attribute 'status_code'"), l')
  /\ get_or_abort func args l
     = (Raise (AttributeError "'NoneType' object has no attribute 'status_code'"),
        l' ++ [(ERROR, StrExn (HTTPError msg None))]).
Proof.
  intros Hcall. unfold get_or_abort_except_client_errors, get_or_abort.
  now rewrite !(_do_get_or_abort_raised _ _ _ _ _ _ Hcall).
Qed.

Lemma http_error_without_response_witness :
  failing_call (HTTPError "bad gateway" None) tt [] = (Raise (HTTPError "bad gateway" None), [])
  /\ get_or_abort (failing_call (HTTPError "bad gateway" None)) tt []
     = (Raise (AttributeError "'NoneType' object has no attribute 'status_code'"),
        [(ERROR, StrExn (HTTPError "bad gateway" None))]).
Proof.
  split; [reflexivity |].
  exact (proj2 (http_error_without_response
                  (failing_call (HTTPError "bad gateway" None)) tt [] [] "bad gateway"
                  eq_refl)).
Defined.

(** X3. An exception of the call that does not derive from [Exception] (a
    keyboard interrupt, an exit) goes through the wrapper as it is, with
    either flag, and nothing is logged for it. *)
Theorem wrapper_passes_base_exceptions {Args R} (flag : bool)
    (func : Args -> M R) (args : Args) (l l' : list log_record) (e : exn) :
  func args l = (Raise e, l') ->
  is_Exception e = false ->
  _do_get_or_abort flag func args l = (Raise e, l').
Proof.
  intros Hcall Hbase. rewrite (_do_get_or_abort_raised _ _ _ _ flag e Hcall).
  destruct e; cbn in Hbase; try discriminate; reflexivity.
Qed.

Lemma wrapper_passes_base_exceptions_witness :
  _do_get_or_abort true (failing_call (OtherBaseException "KeyboardInterrupt" "")) tt []
  = (Raise (OtherBaseException "KeyboardInterrupt" ""), []).
Proof.
  exact (wrapper_passes_base_exceptions true
           (failing_call (OtherBaseException "KeyboardInterrupt" "")) tt [] []
           _ eq_refl eq_refl).
Defined.

(** X4. The two entry points differ on client errors only: unless the call
    raises an HTTP error that has no response or a status code in [400,499],
    they give the same result and the same records. *)
Theorem entry_points_agree_off_client_errors {Args R}
    (func : Args -> M R) (args : Args) (l : list log_record) :
  (forall msg response l',
      func args l = (Raise (HTTPError msg response), l') ->
      exists r, response = Some r /\ ~ (400 <= status_code r <= 499)%Z) ->
  get_or_abort_except_client_errors func args l = get_or_abort func args l.
Proof.
  intros Hno. unfold get_or_abort_except_client_errors, get_or_abort.
  destruct (func args l) as [[v | e] l'] eqn:Hcall.
  - unfold _do_get_or_abort, try_except. now rewrite Hcall.
  - rewrite !(_do_get_or_abort_raised _ _ _ _ _ e Hcall).
    destruct e as [msg response| | | | | | | | | | |]; try reflexivity.
    destruct (Hno msg response l' eq_refl) as (r & -> & Hout). cbn [andb].
    destruct (Z.leb_spec 400 (status_code r)), (Z.leb_spec (status_code r) 499);
      try reflexivity.
    exfalso. apply Hout. lia.
Qed.

Lemma entry_points_agree_off_client_errors_witness :
  get_or_abort_except_client_errors
    (failing_call (HTTPError "503 Server Error" (Some {| status_code := 503 |}))) tt []
  = get_or_abort
      (failing_call (HTTPError "503 Server Error" (Some {| status_code := 503 |}))) tt [].
Proof.
  apply entry_points_agree_off_client_errors.
  intros msg response l' Hcall. injection Hcall as <- <- _.
  exists {| status_code := 503 |}. split; [reflexivity | cbn; lia].
Defined.

(** X5. The wrapper keeps every record the call left and adds at most one: the
    text of the exception the call raised, at warning or error level. *)
Theorem wrapper_logs_at_most_once {Args R} (flag : bool)
    (func : Args -> M R) (args : Args) (l : list log_record) :
  exists added,
    snd (_do_get_or_abort flag func args l) = snd (func args l) ++ added
    /\ (added = []
        \/ exists lv e, fst (func args l) = Raise e
                        /\ added = [(lv, StrExn e)] /\ lv <> INFO).
Proof.
  destruct (func args l) as [[v | e] l'] eqn:Hcall.
  - exists []. unfold _do_get_or_abort, try_except. rewrite Hcall. cbn.
    split; [now rewrite app_nil_r | now left].
  - rewrite (_do_get_or_abort_raised _ _ _ _ flag e Hcall). cbn [fst snd].
    assert (forall lv, lv <> INFO ->
              exists added, l' ++ [(lv, StrExn e)] = l' ++ added
                /\ (added = [] \/ exists lv0 e0, Raise (A:=R) e = Raise e0
                      /\ added = [(lv0, StrExn e0)] /\ lv0 <> INFO)) as Hone.
    { intros lv Hlv. exists [(lv, StrExn e)]. split; [reflexivity |].
      right. exists lv, e. auto. }
    assert (exists added, l' = l' ++ added
              /\ (added = [] \/ exists lv0 e0, Raise (A:=R) e = Raise e0
                    /\ added = [(lv0, StrExn e0)] /\ lv0 <> INFO)) as Hnone.
    { exists []. split; [now rewrite app_nil_r | now left]. }
    destruct e as [msg [r|]| | | | | | | | | | |]; cbn [is_Exception snd];
      try (apply Hone; discriminate); try exact Hnone.
    + destruct (flag && (400 <=? status_code r)%Z && (status_code r <=? 499)%Z);
        cbn [snd]; apply Hone; discriminate.
    + destruct flag; [exact Hnone | apply Hone; discriminate].
Qed.

(** What [abort] raises is an [Exception] that is none of the backend
    errors. *)
Lemma abort_raises_unclassified (code : Z) : unclassified (abort_raises code) = true.
Proof. unfold abort_raises. destruct (has_exception_class code); reflexivity. Qed.

(** X6. A wrapper around [get_or_abort]: whatever [Exception] the call
    raises, the inner wrapper logs it and raises (an abort, a lookup error
    for a code the framework has no exception class for, or the failed lookup
    on an HTTP error without response); the outer wrapper, with either flag,
    logs that in turn and aborts with status 500.  The status the inner
    wrapper asked for is lost. *)
Theorem nested_wrappers_abort_500 {Args R} (flag : bool)
    (func : Args -> M R) (args : Args) (l l' : list log_record) (e : exn) :
  func args l = (Raise e, l') ->
  is_Exception e = true ->
  exists inner,
    get_or_abort func args l = (Raise inner, l' ++ [(ERROR, StrExn e)])
    /\ _do_get_or_abort flag (get_or_abort func) args l
       = (Raise (HTTPException 500),
          l' ++ [(ERROR, StrExn e); (ERROR, StrExn inner)]).
Proof.
  intros Hcall Hexc.
  assert (exists inner,
            get_or_abort func args l = (Raise inner, l' ++ [(ERROR, StrExn e)])
            /\ unclassified inner = true) as (inner & Hinner & Hun).
  { unfold get_or_abort. rewrite (_do_get_or_abort_raised _ _ _ _ false e Hcall).
    destruct e as [msg [r|]| | | | | | | | | | |]; cbn in Hexc; try discriminate;
      cbn [andb is_Exception]; eexists; (split; [reflexivity |]);
      first [reflexivity | apply abort_raises_unclassified]. }
  exists inner. split; [exact Hinner |].
  rewrite (_do_get_or_abort_raised _ _ _ _ flag inner Hinner).
  destruct inner; cbn in Hun; try discriminate; cbn [is_Exception];
    now rewrite <- app_assoc.
Qed.

Lemma nested_wrappers_abort_500_witness :
  _do_get_or_abort true (get_or_abort (failing_call (EmptyResponseError "no nodes"))) tt []
  = (Raise (HTTPException 500),
     [(ERROR, StrExn (EmptyResponseError "no nodes"));
      (ERROR, StrExn (OtherException "LookupError" "no exception for 204"))]).
Proof.
  destruct (nested_wrappers_abort_500 true (failing_call (EmptyResponseError "no nodes"))
              tt [] [] (EmptyResponseError "no nodes") eq_refl eq_refl)
    as (inner & Hinner & Houter).
  injection Hinner as <-. exact Houter.
Defined.

(** ** The version gate, beyond the claims *)

(** *** Semantic-version ordering is an ordering *)

Lemma tuple_compare_antisym (a b : list N) :
  tuple_compare b a = CompOpp (tuple_compare a b).
Proof.
  revert b. induction a as [|x a IH]; intros [|y b]; cbn; try reflexivity.
  rewrite (N.compare_antisym x y). destruct (x ?= y)%N; cbn; auto.
Qed.

Lemma tuple_compare_lt_le_trans (a b c : list N) :
  tuple_compare a b = Lt -> tuple_compare b c <> Gt -> tuple_compare a c = Lt.
Proof.
  revert b c. induction a as [|x a IH]; intros [|y b] [|z c]; cbn;
    try congruence.
  destruct (N.compare_spec x y) as [-> | Hxy | Hxy]; try discriminate;
    destruct (N.compare_spec y z) as [-> | Hyz | Hyz]; try congruence;
    intros H1 H2;
    first [ reflexivity
          | eapply IH; eassumption
          | rewrite N.compare_refl; eapply IH; eassumption
          | rewrite (proj2 (N.compare_lt_iff _ _)) by lia; reflexivity ].
Qed.

Lemma tuple_compare_le_lt_trans (a b c : list N) :
  tuple_compare a b <> Gt -> tuple_compare b c = Lt -> tuple_compare a c = Lt.
Proof.
  revert b c. induction a as [|x a IH]; intros [|y b] [|z c]; cbn;
    try congruence.
  destruct (N.compare_spec x y) as [-> | Hxy | Hxy]; try congruence;
    destruct (N.compare_spec y z) as [-> | Hyz | Hyz]; try discriminate;
    intros H1 H2;
    first [ reflexivity
          | eapply IH; eassumption
          | rewrite N.compare_refl; eapply IH; eassumption
          | rewrite (proj2 (N.compare_lt_iff _ _)) by lia; reflexivity ].
Qed.

Lemma semver_lt_le_trans (a b c : list N) :
  semver_lt a b -> semver_le b c -> semver_lt a c.
Proof.
  unfold semver_lt, semver_le. rewrite <- !tuple_compare_strip_zeros.
  apply tuple_compare_lt_le_trans.
Qed.

Lemma semver_le_lt_trans (a b c : list N) :
  semver_le a b -> semver_lt b c -> semver_lt a c.
Proof.
  unfold semver_lt, semver_le. rewrite <- !tuple_compare_strip_zeros.
  apply tuple_compare_le_lt_trans.
Qed.

Lemma semver_not_lt (a b : list N) : ~ semver_lt a b <-> semver_le b a.
Proof.
  unfold semver_lt, semver_le. rewrite <- !tuple_compare_strip_zeros.
  rewrite (tuple_compare_antisym (strip_zeros a) (strip_zeros b)).
  destruct (tuple_compare (strip_zeros a) (strip_zeros b)); cbn;
    split; congruence.
Qed.


(** The bounds of the gate, in increasing order. *)
Lemma gate_bounds_increase :
  semver_lt [5; 2; 0]%N [5; 2; 13]%N /\ semver_lt [5; 2; 13]%N [5; 3; 0]%N
  /\ semver_lt [5; 3; 0]%N [5; 3; 13]%N /\ semver_lt [5; 3; 13]%N [6; 0; 0]%N
  /\ semver_lt [6; 0; 0]%N [6; 9; 1]%N.
Proof. repeat split. Qed.

Lemma semver_lt_le (a b : list N) : semver_lt a b -> semver_le a b.
Proof. unfold semver_lt, semver_le. congruence. Qed.

Lemma semver_lt_trans (a b c : list N) :
  semver_lt a b -> semver_lt b c -> semver_lt a c.
Proof. intros Hab Hbc. eapply semver_lt_le_trans; eauto using semver_lt_le. Qed.

Lemma semver_lt_decided (a b : list N) : semver_lt a b \/ ~ semver_lt a b.
Proof. unfold semver_lt. destruct (semver_compare a b); auto; right; discriminate. Qed.

(** The releases the gate turns away are those outside the accepted ranges. *)
Lemma accepted_iff_not_rejected (r : list N) : accepted r <-> ~ rejected r.
Proof.
  destruct gate_bounds_increase as (H12 & H23 & H34 & H45 & H56).
  pose proof (fun H => semver_lt_trans r _ _ H H12) as M1.
  pose proof (fun H => semver_lt_trans r _ _ H H23) as M2.
  pose proof (fun H => semver_lt_trans r _ _ H H34) as M3.
  pose proof (fun H => semver_lt_trans r _ _ H H45) as M4.
  pose proof (fun H => semver_lt_trans r _ _ H H56) as M5.
  pose proof (semver_lt_decided r [5; 2; 0]%N) as D1.
  pose proof (semver_lt_decided r [5; 2; 13]%N) as D2.
  pose proof (semver_lt_decided r [5; 3; 0]%N) as D3.
  pose proof (semver_lt_decided r [5; 3; 13]%N) as D4.
  pose proof (semver_lt_decided r [6; 0; 0]%N) as D5.
  pose proof (semver_lt_decided r [6; 9; 1]%N) as D6.
  unfold accepted, rejected. rewrite <- !semver_not_lt. tauto.
Qed.

(** *** What the gate does on a parsed version *)

(** The gate on a version that parses: the four tests in the order of the
    source, each with its own record. *)
Lemma check_db_version_parsed
    (puppetdb : PuppetDB) (l l' : list log_record) (version : string) (v : Version) :
  current_version puppetdb l = (Ok version, l') ->
  parse version = Ok v ->
  check_db_version puppetdb l =
    let seen := l' ++ [(INFO, Text ("PuppetDB version: " +:+ version))] in
    if version_le {| release := [5; 2; 0]%N |} v
       && version_lt v {| release := [5; 2; 13]%N |}
    then (Raise (SystemExit 1),
          seen ++ [(ERROR, Text "For PuppetDB 5.2.x version >= 5.2.13 is required (with v2 metrics API)")])
    else if version_le {| release := [5; 3; 0]%N |} v
            && version_lt v {| release := [5; 3; 13]%N |}
    then (Raise (SystemExit 1),
          seen ++ [(ERROR, Text "For PuppetDB 5.3.x version >= 5.3.13 is required (with v2 metrics API)")])
    else if version_le {| release := [6; 0; 0]%N |} v
            && version_lt v {| release := [6; 9; 1]%N |}
    then (Raise (SystemExit 1),
          seen ++ [(ERROR, Text "For PuppetDB 6.x version >= 6.9.1 is required (with v2 metrics API)")])
    else if version_lt v {| release := [5; 2; 13]%N |}
    then (Raise (SystemExit 1),
          seen ++ [(ERROR, Text "The minimum supported version of PuppetDB is 5.2.13 (with v2 metrics API)")])
    else (Ok tt, seen).
Proof.
  intros Hcur Hv.
  cbv beta iota zeta delta
    [check_db_version try_except bind log_info log_error log_to when ret sys_exit raise].
  rewrite Hcur. cbv beta iota.
  rewrite (within_parsed "5.2.0" version "5.2.13"
             {| release := [5; 2; 0]%N |} v {| release := [5; 2; 13]%N |} _ eq_refl Hv eq_refl).
  destruct (version_le {| release := [5; 2; 0]%N |} v
            && version_lt v {| release := [5; 2; 13]%N |}); [reflexivity |].
  rewrite (within_parsed "5.3.0" version "5.3.13"
             {| release := [5; 3; 0]%N |} v {| release := [5; 3; 13]%N |} _ eq_refl Hv eq_refl).
  destruct (version_le {| release := [5; 3; 0]%N |} v
            && version_lt v {| release := [5; 3; 13]%N |}); [reflexivity |].
  rewrite (within_parsed "6.0.0" version "6.9.1"
             {| release := [6; 0; 0]%N |} v {| release := [6; 9; 1]%N |} _ eq_refl Hv eq_refl).
  destruct (version_le {| release := [6; 0; 0]%N |} v
            && version_lt v {| release := [6; 9; 1]%N |}); [reflexivity |].
  rewrite (below_parsed version "5.2.13" v {| release := [5; 2; 13]%N |} _ Hv eq_refl).
  destruct (version_lt v {| release := [5; 2; 13]%N |}); reflexivity.
Qed.



(** X7. The versions that pass the gate are exactly those in [5.2.13, 5.3.0),
    in [5.3.13, 6.0.0) or from 6.9.1 on, in semantic-version ordering: for a
    reported version that parses, the gate returns if and only if the version
    lies in one of these ranges. *)
Theorem version_gate_accepts_exactly
    (puppetdb : PuppetDB) (l l' : list log_record) (version : string) (v : Version) :
  current_version puppetdb l = (Ok version, l') ->
  parse version = Ok v ->
  fst (check_db_version puppetdb l) = Ok tt <-> accepted (release v).
Proof.
  intros Hcur Hv. rewrite accepted_iff_not_rejected, rejected_tests.
  rewrite (check_db_version_parsed _ _ _ _ _ Hcur Hv). cbv zeta.
  destruct (version_le {| release := [5; 2; 0]%N |} v
            && version_lt v {| release := [5; 2; 13]%N |});
    [cbn; split; [discriminate | intros H; now elim H] |].
  destruct (version_le {| release := [5; 3; 0]%N |} v
            && version_lt v {| release := [5; 3; 13]%N |});
    [cbn; split; [discriminate | intros H; now elim H] |].
  destruct (version_le {| release := [6; 0; 0]%N |} v
            && version_lt v {| release := [6; 9; 1]%N |});
    [cbn; split; [discriminate | intros H; now elim H] |].
  destruct (version_lt v {| release := [5; 2; 13]%N |});
    [cbn; split; [discriminate | intros H; now elim H] |].
  cbn. split; [discriminate | reflexivity].
Qed.

Lemma version_gate_accepts_exactly_witness :
  parse "7.10.0" = Ok {| release := [7; 10; 0]%N |}
  /\ fst (check_db_version (backend_at "7.10.0") []) = Ok tt
  /\ fst (check_db_version (backend_at "5.2.19") []) = Ok tt
  /\ fst (check_db_version (backend_at "5.3.12") []) <> Ok tt.
Proof.
  split; [reflexivity |]. refine (conj _ (conj _ _)).
  - apply (version_gate_accepts_exactly (backend_at "7.10.0") [] [] "7.10.0"
             {| release := [7; 10; 0]%N |} eq_refl eq_refl).
    right. right. unfold semver_le. vm_compute. discriminate.
  - apply (version_gate_accepts_exactly (backend_at "5.2.19") [] [] "5.2.19"
             {| release := [5; 2; 19]%N |} eq_refl eq_refl).
    left. unfold semver_le, semver_lt. vm_compute. split; [discriminate | reflexivity].
  - intros H.
    apply (version_gate_accepts_exactly (backend_at "5.3.12") [] [] "5.3.12"
             {| release := [5; 3; 12]%N |} eq_refl eq_refl) in H.
    revert H. unfold accepted, semver_le, semver_lt. vm_compute.
    intros [[_ H] | [[H _] | H]]; first [discriminate H | now apply H].
Defined.



(** X9. A failure of the call for the version that is none of the three
    backend errors is not the gate's to handle: the exception reaches the
    caller as it is, nothing is logged, and no exit code is chosen. *)
Theorem version_gate_passes_other_exceptions
    (puppetdb : PuppetDB) (l l' : list log_record) (e : exn) :
  current_version puppetdb l = (Raise e, l') ->
  backend_error e = false ->
  check_db_version puppetdb l = (Raise e, l').
Proof.
  intros Hcur He.
  cbv beta iota delta [check_db_version try_except bind].
  rewrite Hcur. cbv beta iota.
  destruct e; cbn in He; try discriminate; reflexivity.
Qed.

Lemma version_gate_passes_other_exceptions_witness :
  check_db_version (backend_down (OtherException "ReadTimeout" "read timed out")) []
  = (Raise (OtherException "ReadTimeout" "read timed out"), []).
Proof.
  exact (version_gate_passes_other_exceptions
           (backend_down (OtherException "ReadTimeout" "read timed out")) [] []
           _ eq_refl eq_refl).
Defined.

(** ** The streaming guard, beyond the claims *)

Section GuardFurther.
Context {A St : Type}.
Variable next_ : St -> result A * St.

(** X10. The guard is lazy: a consumer that asks [fuel] times, no more than
    the source has elements, receives the first [fuel] of them, and the source
    has been advanced by exactly that many: what it still has to give is the
    rest. *)
Theorem guard_reads_no_further_than_asked
    (s s' : St) (xs : list A) (e : exn) (fuel : nat) :
  emits next_ s xs e s' ->
  fuel <= length xs ->
  exists s1,
    consume next_ fuel (Suspended s) = (firstn fuel xs, Pending, Suspended s1)
    /\ emits next_ s1 (skipn fuel xs) e s'.
Proof.
  intros Hsrc. revert fuel.
  induction Hsrc as [s e s' Hnext | s x s1 xs e s' Hnext Hrest IH]; intros fuel Hfuel.
  - destruct fuel as [|fuel]; [| cbn in Hfuel; lia].
    exists s. split; [reflexivity | now apply emits_raise].
  - destruct fuel as [|fuel].
    + exists s. split; [reflexivity |]. cbn [skipn]. eapply emits_yield; eassumption.
    + destruct (IH fuel) as (s2 & Hrun & Hleft); [cbn in Hfuel; lia |].
      exists s2. cbn [consume firstn skipn]. split; [| exact Hleft].
      cbn [yield_or_stop]. rewrite Hnext, Hrun. reflexivity.
Qed.

(** X11. The guard ends once: when a loop over it has ended, cleanly or with
    an exception, every later request ends cleanly at once, and the source is
    not asked again. *)
Theorem guard_ends_once (fuel : nat) (s : St) (xs : list A) (en : ending) (g : guard) :
  consume next_ fuel (Suspended s) = (xs, en, g) ->
  en <> Pending ->
  (exists s', g = Finished s')
  /\ forall k, consume next_ (S k) g = ([], Exhausted, g).
Proof.
  revert s xs. induction fuel as [|fuel IH]; intros s xs Hrun Hen.
  - cbn in Hrun. injection Hrun as _ <- _. now elim Hen.
  - cbn [consume yield_or_stop] in Hrun.
    destruct (next_ s) as [[x | e] s1].
    + destruct (consume next_ fuel (Suspended s1)) as [[ys en'] g'] eqn:Hrest.
      injection Hrun as _ <- <-. exact (IH _ _ Hrest Hen).
    + assert (g = Finished s1) as ->.
      { destruct (stops e); [injection Hrun as _ _ <-; reflexivity |].
        destruct e; injection Hrun as _ _ <-; reflexivity. }
      split; [eauto | reflexivity].
Qed.

(** X12. A guard around a guard behaves as one guard: for every source and
    every number of requests, the elements received and the way the loop ends
    are the same. *)
Theorem guard_of_guard (fuel : nat) (s : St) :
  fst (consume (yield_or_stop next_) fuel (Suspended (Suspended s)))
  = fst (consume next_ fuel (Suspended s)).
Proof.
  revert s. induction fuel as [|fuel IH]; intros s; [reflexivity |].
  cbn [consume yield_or_stop].
  destruct (next_ s) as [[x | e] s1].
  - specialize (IH s1).
    destruct (consume (yield_or_stop next_) fuel (Suspended (Suspended s1)))
      as [[ys en] g].
    destruct (consume next_ fuel (Suspended s1)) as [[ys' en'] g'].
    cbn in IH |- *. congruence.
  - destruct (stops e) eqn:He; cbn [stops].
    + reflexivity.
    + rewrite He. destruct e; try reflexivity; discriminate.
Qed.
End GuardFurther.

Lemma guard_reads_no_further_than_asked_witness :
  consume scripted 2 (Suspended ([10; 20; 30], ConnectionError "reset"))
  = ([10; 20], Pending, Suspended ([30], ConnectionError "reset")).
Proof.
  destruct (guard_reads_no_further_than_asked scripted _ _ _ _ 2
              (scripted_emits [10; 20; 30] (ConnectionError "reset")))
    as (s1 & Hrun & _); [cbn; lia |].
  rewrite Hrun. cbn [firstn]. f_equal.
  vm_compute in Hrun. now injection Hrun as <-.
Defined.

Lemma guard_ends_once_witness :
  consume scripted 5 (Suspended ([1], TypeError "boom"))
    = ([1], Failed (TypeError "boom"), Finished ([], TypeError "boom"))
  /\ consume scripted 3 (Finished (([] : list nat), TypeError "boom"))
     = ([], Exhausted, Finished ([], TypeError "boom")).
Proof.
  split; [reflexivity |].
  apply (proj2 (guard_ends_once scripted 5 ([1], TypeError "boom") [1]
                  (Failed (TypeError "boom")) _ eq_refl ltac:(discriminate))).
Defined.

(** ** The value formatter, beyond the claims *)

Lemma formatvalue_list (items : list value) :
  formatvalue (VList items) =
    match format_each items with
    | Raise e => Raise e
    | Ok parts => Ok (join ", " parts)
    end.
Proof. reflexivity. Qed.

(** The formatter on each value: the rendering when all keys are strings, a
    type error otherwise. *)
Lemma formatvalue_cases (v : value) :
  (str_keyed v = true /\ formatvalue v = Ok (render v))
  \/ (str_keyed v = false /\ exists msg, formatvalue v = Raise (TypeError msg)).
Proof.
  induction v as [s | items IH | items IH | o] using value_nested_ind.
  - left. split; reflexivity.
  - rewrite formatvalue_list. cbn [str_keyed render].
    assert ((forallb str_keyed items = true
             /\ format_each items = Ok (map render items))
            \/ (forallb str_keyed items = false
                /\ exists msg, format_each items = Raise (TypeError msg))) as Hitems.
    { induction IH as [|x items Hx _ IHitems]; [left; split; reflexivity |].
      cbn [forallb format_each map].
      destruct Hx as [[-> ->] | [-> [msg ->]]]; [| right; split; eauto].
      destruct IHitems as [[-> ->] | [-> [msg ->]]];
        [left; split; reflexivity | right; split; eauto]. }
    destruct Hitems as [[-> ->] | [-> [msg ->]]]; [left | right]; split; eauto.
  - cbn [formatvalue render str_keyed].
    match goal with
    | |- context [?loop "" items] =>
        assert ((forallb (fun '(k, x) =>
                            match k with KStr _ => str_keyed x | _ => false end)
                         items = true
                 /\ forall ret,
                      loop ret items =
                        Ok (ret +:+ concat_all
                              (map (fun '(k, x) =>
                                      key_text k +:+ " => " +:+ render x +:+ ",<br/>")
                                   items)))
                \/ (forallb (fun '(k, x) =>
                               match k with KStr _ => str_keyed x | _ => false end)
                            items = false
                    /\ forall ret, exists msg, loop ret items = Raise (TypeError msg)))
          as Hitems
    end.
    { induction IH as [|[k x] items Hx _ IHitems].
      - left. split; [reflexivity |]. intros ret. cbn. now rewrite append_nil_r.
      - cbn [forallb snd] in *.
        destruct k as [| b | n | ks];
          try (right; split; [reflexivity |]; intros ret; cbn; eauto; fail).
        destruct Hx as [[-> Hfx] | [-> [msg Hfx]]].
        + destruct IHitems as [[-> Hloop] | [-> Hloop]]; [left | right];
            (split; [reflexivity |]); intros ret; cbn [key_add_str]; rewrite Hfx.
          * rewrite Hloop. cbn [map concat_all fold_right key_text].
            now rewrite !append_assoc.
          * apply Hloop.
        + right. split; [reflexivity |]. intros ret. cbn [key_add_str].
          rewrite Hfx. eauto. }
    destruct Hitems as [[-> Hloop] | [-> Hloop]]; [left | right];
      (split; [reflexivity |]).
    + exact (Hloop "").
    + exact (Hloop "").
  - left. split; reflexivity.
Qed.

(** X13. The only way the formatter fails is a type error, and it fails
    exactly on the values that hold, at some depth, a mapping with a key that
    is not a string; on every other value it returns a text. *)
Theorem formatvalue_fails_exactly_on_other_keys (v : value) :
  (str_keyed v = false <-> exists msg, formatvalue v = Raise (TypeError msg))
  /\ (str_keyed v = true <-> exists text, formatvalue v = Ok text)
  /\ (forall e, formatvalue v = Raise e -> exists msg, e = TypeError msg).
Proof.
  destruct (formatvalue_cases v) as [[Hk Hf] | [Hk [msg Hf]]]; rewrite Hk, Hf.
  - refine (conj _ (conj _ _)).
    + split; [discriminate | intros [m H]; discriminate].
    + split; eauto.
    + discriminate.
  - refine (conj _ (conj _ _)).
    + split; eauto.
    + split; [discriminate | intros [t H]; discriminate].
    + intros e H. injection H as <-. eauto.
Qed.

Lemma format_each_app (a b : list value) :
  format_each (a ++ b) =
    match format_each a with
    | Raise e => Raise e
    | Ok pa =>
        match format_each b with
        | Raise e => Raise e
        | Ok pb => Ok (pa ++ pb)
        end
    end.
Proof.
  induction a as [|x a IH]; cbn [app format_each].
  - destruct (format_each b); reflexivity.
  - destruct (formatvalue x); [| reflexivity]. rewrite IH.
    destruct (format_each a); [| reflexivity].
    destruct (format_each b); reflexivity.
Qed.

Lemma format_each_length (l : list value) (parts : list string) :
  format_each l = Ok parts -> length parts = length l.
Proof.
  revert parts. induction l as [|x l IH]; intros parts; cbn [format_each].
  - intros H. injection H as <-. reflexivity.
  - destruct (formatvalue x); [| discriminate].
    destruct (format_each l) as [ss |]; [| discriminate].
    intros H. injection H as <-. cbn. now rewrite (IH ss eq_refl).
Qed.

Lemma join_cons (sep x : string) (l : list string) :
  l <> [] -> join sep (x :: l) = x +:+ sep +:+ join sep l.
Proof. destruct l; [congruence | reflexivity]. Qed.

Lemma join_inner (sep : string) (inner rest : list string) :
  inner <> [] -> join sep (join sep inner :: rest) = join sep (inner ++ rest).
Proof.
  induction inner as [|x inner IH]; [congruence |]. intros _.
  destruct inner as [|y inner].
  - reflexivity.
  - change ((x :: y :: inner) ++ rest) with (x :: ((y :: inner) ++ rest)).
    rewrite (join_cons sep x ((y :: inner) ++ rest)) by discriminate.
    rewrite <- IH by discriminate.
    rewrite (join_cons sep x (y :: inner)) by discriminate.
    destruct rest as [|r rest].
    + unfold join at 1 3. cbn [String.concat]. reflexivity.
    + rewrite (join_cons sep _ (r :: rest)) by discriminate.
      rewrite (join_cons sep (join sep (y :: inner)) (r :: rest)) by discriminate.
      now rewrite !append_assoc.
Qed.

Lemma join_after (sep : string) (before l1 l2 : list string) :
  l1 <> [] -> l2 <> [] -> join sep l1 = join sep l2 ->
  join sep (before ++ l1) = join sep (before ++ l2).
Proof.
  intros H1 H2 Heq. induction before as [|x before IH]; [exact Heq |].
  cbn [app]. rewrite !join_cons, IH; [reflexivity | |];
    destruct before; cbn; try discriminate; assumption.
Qed.

(** X14. The rendering does not show how lists are nested: a non-empty list
    that is an element of a list is formatted as if its elements stood in its
    place, in a text or in the exception raised. *)
Theorem nested_list_formats_flat (before inner after : list value) :
  inner <> [] ->
  formatvalue (VList (before ++ VList inner :: after))
  = formatvalue (VList (before ++ inner ++ after)).
Proof.
  intros Hinner. rewrite !formatvalue_list, !format_each_app.
  destruct (format_each before) as [pb |]; [| reflexivity].
  cbn [format_each]. rewrite formatvalue_list.
  destruct (format_each inner) as [pi |] eqn:Hpi; [| reflexivity].
  destruct (format_each after) as [pa |]; [| reflexivity].
  f_equal. apply join_after.
  - discriminate.
  - apply format_each_length in Hpi. destruct pi, inner; cbn in *; congruence.
  - apply join_inner.
    apply format_each_length in Hpi. destruct pi, inner; cbn in *; congruence.
Qed.

Lemma nested_list_formats_flat_witness :
  formatvalue (VList [VStr "lo"; VList [VStr "eth0"; VStr "eth1"]; VInt 3])
  = formatvalue (VList [VStr "lo"; VStr "eth0"; VStr "eth1"; VInt 3]).
Proof.
  exact (nested_list_formats_flat [VStr "lo"] [VStr "eth0"; VStr "eth1"] [VInt 3]
           ltac:(discriminate)).
Defined.

(** ** Column-name quoting *)

Lemma quote_columns_data_cons (c : ascii) (rest : string) :
  quote_columns_data (String c rest) =
    if Ascii.eqb c "." then String "\" (String "." (quote_columns_data rest))
    else String c (quote_columns_data rest).
Proof.
  unfold quote_columns_data. cbn [replace_char]. destruct (Ascii.eqb c "."); reflexivity.
Qed.

(** A quoted name never starts with a dot. *)
Lemma quote_columns_data_head (data : string) :
  match quote_columns_data data with
  | String c _ => Ascii.eqb c "." = false
  | EmptyString => True
  end.
Proof.
  destruct data as [|c rest]; [exact I |]. rewrite quote_columns_data_cons.
  destruct (Ascii.eqb c ".") eqn:Hc; [reflexivity | exact Hc].
Qed.

(** Lengths and dots of a quoted name. *)
Lemma quote_columns_data_counts (data : string) :
  String.length (quote_columns_data data)
    = (String.length data + count_char "." data)%nat
  /\ count_char "." (quote_columns_data data) = count_char "." data.
Proof.
  induction data as [|c rest [IHlen IHdots]]; [split; reflexivity |].
  rewrite quote_columns_data_cons. cbn [String.length count_char].
  destruct (Ascii.eqb c ".") eqn:Hc; cbn [String.length count_char].
  - change (Ascii.eqb "\" ".") with false. change (Ascii.eqb "." ".") with true.
    rewrite IHlen, IHdots. split; lia.
  - rewrite Hc, IHlen, IHdots. split; lia.
Qed.

(** X15. In a quoted name every dot stands right after a backslash, and the
    name is longer than the original by the number of its dots: one backslash
    is added per dot and nothing else changes. *)
Theorem quote_columns_data_escapes_every_dot (data : string) :
  dots_escaped false (quote_columns_data data) = true
  /\ String.length (quote_columns_data data)
     = (String.length data + count_char "." data)%nat
  /\ count_char "." (quote_columns_data data) = count_char "." data.
Proof.
  assert (forall b, dots_escaped b (quote_columns_data data) = true) as Hesc.
  { induction data as [|c rest IH]; intros b; [reflexivity |].
    rewrite quote_columns_data_cons. destruct (Ascii.eqb c ".") eqn:Hc.
    - cbn [dots_escaped]. change (Ascii.eqb "\" ".") with false.
      change (Ascii.eqb "\" "\") with true. change (Ascii.eqb "." ".") with true.
      cbn [andb]. apply IH.
    - cbn [dots_escaped]. rewrite Hc. cbn [andb]. apply IH. }
  split; [apply Hesc |].
  exact (quote_columns_data_counts data).
Qed.

(** Reading the quoted name gives the name back. *)
Lemma unquote_quote (data : string) :
  unquote_columns_data (quote_columns_data data) = data.
Proof.
  induction data as [|c rest IH]; [reflexivity |].
  rewrite quote_columns_data_cons. destruct (Ascii.eqb c ".") eqn:Hc.
  - apply Ascii.eqb_eq in Hc as ->. cbn. now rewrite IH.
  - pose proof (quote_columns_data_head rest) as Hhead.
    destruct (quote_columns_data rest) as [|d q] eqn:Hq.
    + rewrite <- IH. cbn. destruct c as [[] [] [] [] [] [] [] []]; reflexivity.
    + assert (unquote_columns_data (String c (String d q))
              = String c (unquote_columns_data (String d q))) as ->.
      { destruct (Ascii.eqb_spec c "\") as [-> | Hnb].
        - destruct d as [[] [] [] [] [] [] [] []]; try reflexivity. discriminate Hhead.
        - destruct c as [[] [] [] [] [] [] [] []]; try reflexivity. now elim Hnb. }
      now rewrite IH.
Qed.

(** X16. Quoting loses nothing: two names with the same quoted form are the
    same name, and reading backslash-dot as a dot gives the name back, also
    when the name holds backslashes of its own. *)
Theorem quote_columns_data_injective (a b : string) :
  (quote_columns_data a = quote_columns_data b <-> a = b)
  /\ unquote_columns_data (quote_columns_data a) = a.
Proof.
  split; [| apply unquote_quote].
  split; [| now intros ->].
  intros H. rewrite <- (unquote_quote a), <- (unquote_quote b). now rewrite H.
Qed.

Lemma replace_char_app (old : ascii) (new a b : string) :
  replace_char old new (a +:+ b) = replace_char old new a +:+ replace_char old new b.
Proof.
  induction a as [|c a IH]; [reflexivity |].
  change (String c a +:+ b) with (String c (a +:+ b)). cbn [replace_char].
  rewrite IH. destruct (Ascii.eqb c old); [now rewrite append_assoc | reflexivity].
Qed.

(** X17. Quoting works piece by piece, and it is not idempotent: the quoted
    form of a concatenation is the concatenation of the quoted forms; a name
    is left as it is exactly when it has no dot; and quoting a second time
    changes the result again exactly when the name has a dot. *)
Theorem quote_columns_data_twice (a b : string) :
  quote_columns_data (a +:+ b) = quote_columns_data a +:+ quote_columns_data b
  /\ (quote_columns_data a = a <-> count_char "." a = O)
  /\ (quote_columns_data (quote_columns_data a) = quote_columns_data a
      <-> count_char "." a = O).
Proof.
  assert (forall s, quote_columns_data s = s <-> count_char "." s = O) as Hfix.
  { intros s. split.
    - intros H. apply (f_equal String.length) in H.
      rewrite (proj1 (quote_columns_data_counts s)) in H. lia.
    - induction s as [|c s IH]; [reflexivity |].
      rewrite quote_columns_data_cons. cbn [count_char].
      destruct (Ascii.eqb c "."); [discriminate |]. intros H. now rewrite IH. }
  refine (conj (replace_char_app _ _ _ _) (conj (Hfix a) _)).
  rewrite Hfix. now rewrite (proj2 (quote_columns_data_counts a)).
Qed.

(** ** Static assets of a template *)

Lemma cut_no_slash (t : string) :
  count_char "/" t = O -> cut_after_last_slash t = (EmptyString, t).
Proof.
  induction t as [|c t IH]; [reflexivity |]. cbn [count_char cut_after_last_slash].
  destruct (Ascii.eqb c "/"); [discriminate |]. intros H. now rewrite IH.
Qed.

Lemma cut_at_last_slash (a t : string) :
  count_char "/" t = O ->
  cut_after_last_slash (a +:+ String "/" t) = (a +:+ String "/" EmptyString, t).
Proof.
  intros Ht. induction a as [|c a IH].
  - change (cut_after_last_slash (String "/" t) = (String "/" EmptyString, t)).
    cbn [cut_after_last_slash]. now rewrite (cut_no_slash t Ht).
  - change (cut_after_last_slash (String c (a +:+ String "/" t))
            = (String c (a +:+ String "/" EmptyString), t)).
    cbn [cut_after_last_slash]. rewrite IH.
    destruct a; reflexivity.
Qed.

Lemma cut_tail_no_slash (p : string) :
  count_char "/" (snd (cut_after_last_slash p)) = O.
Proof.
  induction p as [|c p IH]; [reflexivity |]. cbn [cut_after_last_slash].
  destruct (cut_after_last_slash p) as [[|h head] tail]; cbn [snd] in *.
  - destruct (Ascii.eqb c "/") eqn:Hc; cbn [snd count_char]; [exact IH |].
    now rewrite Hc, IH.
  - exact IH.
Qed.

Lemma rstrip_slashes_snoc (s : string) :
  rstrip_slashes (s +:+ String "/" EmptyString) = rstrip_slashes s.
Proof.
  induction s as [|c s IH]; [reflexivity |].
  change (rstrip_slashes (String c (s +:+ String "/" EmptyString))
          = rstrip_slashes (String c s)).
  cbn [rstrip_slashes]. now rewrite IH.
Qed.

Lemma rstrip_slashes_no_slash (d : string) :
  count_char "/" d = O -> rstrip_slashes d = d.
Proof.
  induction d as [|c d IH]; [reflexivity |]. cbn [count_char rstrip_slashes].
  destruct (Ascii.eqb c "/"); [discriminate |]. intros H. rewrite IH by exact H.
  destruct d; reflexivity.
Qed.

Lemma rstrip_slashes_before (x d : string) :
  d <> EmptyString -> count_char "/" d = O -> rstrip_slashes (x +:+ d) = x +:+ d.
Proof.
  intros Hd Hs. induction x as [|c x IH].
  - now apply rstrip_slashes_no_slash.
  - change (rstrip_slashes (String c (x +:+ d)) = String c (x +:+ d)).
    cbn [rstrip_slashes]. rewrite IH.
    destruct x; [destruct d; [congruence | reflexivity] | reflexivity].
Qed.

Lemma all_slashes_app (a b : string) :
  all_slashes (a +:+ b) = all_slashes a && all_slashes b.
Proof.
  induction a as [|c a IH]; [reflexivity |].
  change (all_slashes (String c (a +:+ b)) = all_slashes (String c a) && all_slashes b).
  cbn [all_slashes]. rewrite IH. now rewrite andb_assoc.
Qed.

Lemma all_slashes_no_slash (d : string) :
  d <> EmptyString -> count_char "/" d = O -> all_slashes d = false.
Proof.
  destruct d as [|c d]; [congruence |]. intros _. cbn [count_char all_slashes].
  destruct (Ascii.eqb c "/"); [discriminate | reflexivity].
Qed.

Section UrlsProperties.
Variable url_for : string -> gmap string value -> result string.

(** X18. Of the directories of a template only the innermost names the
    static path: for a template [before dir/file], where [dir] and [file]
    hold no slash and [before] is empty or ends with a slash, the asset is
    looked up as [dir/value], whatever the directories in [before]. *)
Theorem url_static_offline_innermost_directory
    (before dir file value : string) :
  before = EmptyString \/ (exists b, before = b +:+ String "/" EmptyString) ->
  dir <> EmptyString -> count_char "/" dir = O -> count_char "/" file = O ->
  url_static_offline url_for
    {| name := Some (before +:+ dir +:+ String "/" file) |} value
  = url_for "static" {[ "filename" := VStr (dir +:+ "/" +:+ value) ]}.
Proof.
  intros Hbefore Hdir Hdirs Hfile. unfold url_static_offline. cbn [name].
  assert (static_path_of (before +:+ dir +:+ String "/" file) = dir) as ->;
    [| reflexivity].
  unfold static_path_of, path_dirname.
  rewrite <- append_assoc, (cut_at_last_slash (before +:+ dir) file Hfile). cbn [fst].
  assert (trim_head ((before +:+ dir) +:+ String "/" EmptyString) = before +:+ dir) as ->.
  { unfold trim_head.
    rewrite all_slashes_app, all_slashes_app, (all_slashes_no_slash dir Hdir Hdirs).
    rewrite andb_false_r. cbn [andb].
    rewrite rstrip_slashes_snoc, (rstrip_slashes_before before dir Hdir Hdirs).
    destruct ((before +:+ dir) +:+ String "/" EmptyString) eqn:Hempty; [| reflexivity].
    apply (f_equal String.length) in Hempty.
    destruct (before +:+ dir); discriminate Hempty. }
  unfold path_split.
  destruct Hbefore as [-> | [b ->]].
  - change (EmptyString +:+ dir) with dir. rewrite (cut_no_slash dir Hdirs). reflexivity.
  - rewrite append_assoc. change (String "/" EmptyString +:+ dir) with (String "/" dir).
    rewrite (cut_at_last_slash b dir Hdirs). reflexivity.
Qed.

(** X19. The static path never holds a slash; for a template that lies in no
    directory it is empty, so that the asset is looked up as [/value]; and a
    context without a template name makes the helper raise a type error
    before [url_for] is called. *)
Theorem url_static_offline_single_component (template value : string) :
  count_char "/" (static_path_of template) = O
  /\ (count_char "/" template = O ->
        url_static_offline url_for {| name := Some template |} value
        = url_for "static" {[ "filename" := VStr ("/" +:+ value) ]})
  /\ exists msg, url_static_offline url_for {| name := None |} value = Raise (TypeError msg).
Proof.
  refine (conj _ (conj _ _)).
  - unfold static_path_of, path_split.
    pose proof (cut_tail_no_slash (path_dirname template)) as Htail.
    destruct (cut_after_last_slash (path_dirname template)) as [head tail].
    exact Htail.
  - intros Hflat. unfold url_static_offline, static_path_of, path_dirname. cbn [name].
    rewrite (cut_no_slash template Hflat). reflexivity.
  - eexists. reflexivity.
Qed.

(** X20. The arguments of the link that [url_for_field] builds: the field has
    the new value, whatever the request held for it; every other argument is
    the one of the query when the query has it, and the one of the route
    otherwise; nothing else is passed.  A request that matched no route has
    no route arguments to copy: the helper raises an attribute error. *)
Theorem url_for_field_arguments (request : Request) (field : string) (v : value) :
  (forall route, view_args request = Some route ->
     exists m,
       url_for_field url_for request field v = url_for (endpoint request) m
       /\ m !! field = Some v
       /\ forall k, k <> field ->
            m !! k = match args request !! k with
                     | Some q => Some q
                     | None => route !! k
                     end)
  /\ (view_args request = None ->
        exists msg, url_for_field url_for request field v = Raise (AttributeError msg)).
Proof.
  split.
  - intros route Hroute. exists (field_args route (args request) field v).
    unfold url_for_field, field_args. rewrite Hroute.
    split; [reflexivity |]. split; [apply lookup_insert_eq |].
    intros k Hk. rewrite lookup_insert_ne by congruence.
    rewrite lookup_union. destruct (args request !! k), (route !! k); reflexivity.
  - intros Hnone. unfold url_for_field. rewrite Hnone. eauto.
Qed.
End UrlsProperties.

Lemma url_static_offline_innermost_directory_witness :
  url_static_offline static_url
    {| name := Some "reports/daily/index.html" |} "css/board.css"
  = Ok "/static/daily/css/board.css".
Proof.
  refine (eq_trans
            (url_static_offline_innermost_directory static_url
               "reports/" "daily" "index.html" "css/board.css"
               (or_intror (ex_intro _ "reports" eq_refl)) ltac:(discriminate)
               eq_refl eq_refl) _).
  reflexivity.
Defined.

(** ** The environment validator, beyond the claims *)

(** X21. Knowing more environments never turns a name away: a name that
    passes for a set of environments passes for every larger set. *)
Theorem check_env_monotone (env : string) (envs envs' : gset string)
    (l : list log_record) :
  envs ⊆ envs' ->
  check_env env envs l = (Ok tt, l) ->
  check_env env envs' l = (Ok tt, l).
Proof.
  intros Hsub Hpass.
  unfold check_env in *.
  destruct (bool_decide (env <> "*")); [| reflexivity]. cbn [andb] in *.
  destruct (bool_decide (env ∉ envs)) eqn:Hout; [discriminate |].
  apply bool_decide_eq_false in Hout.
  rewrite (bool_decide_eq_false_2 (env ∉ envs')); [reflexivity |].
  intros Hnot. apply Hout. intros Hin. apply Hnot. now apply Hsub.
Qed.

Lemma check_env_monotone_witness :
  check_env "dev" ({["dev"]} ∪ {["qa"]}) [] = (Ok tt, []).
Proof.
  apply (check_env_monotone "dev" {["dev"]} ({["dev"]} ∪ {["qa"]}) []).
  - apply union_subseteq_l.
  - reflexivity.
Defined.

(** ** The generic value parser, beyond the claims *)

(** X22. What [parse_python] raises is what the evaluator raised, and it is
    raised exactly when that is neither a syntax error nor a value error: a
    type error, a memory error or a recursion error of the evaluator reaches
    the caller. *)
Theorem parse_python_raises_iff
    (literal_eval : string -> result value) (s : string) (e : exn) :
  parse_python literal_eval s = Raise e
  <-> literal_eval s = Raise e
      /\ (forall m, e <> ValueError m) /\ (forall m, e <> SyntaxError m).
Proof.
  unfold parse_python. split.
  - destruct (literal_eval s) as [v | e0]; [discriminate |].
    destruct e0; try discriminate; intros H; injection H as <-;
      repeat split; discriminate.
  - intros (-> & Hv & Hs).
    destruct e as [| | | | m | m | | | | | |]; try reflexivity.
    + now elim (Hv m).
    + now elim (Hs m).
Qed.
